(** * GraphQL resolution layer of weaviate ([package graphqlapi])

    A shallow embedding of the schema resolvers, of the cross-reference
    resolution [resolveCrossRef] and of the sub-query reprojection
    [GetSubQuery], together with the properties the specification states
    about them. *)

From Stdlib Require Import String Ascii ZArith Lia.
From stdpp Require Import base option list gmap strings.

Local Open Scope string_scope.

(** ** Outcomes of Go code *)

(** A Go call either returns or panics (failed type assertion, nil
    dereference). *)
Inductive outcome (A : Type) : Type :=
| Ret (a : A)
| Panic (reason : string).
Arguments Ret {A} a.
Arguments Panic {A} reason.

Definition obind {A B} (o : outcome A) (k : A -> outcome B) : outcome B :=
  match o with
  | Ret a => k a
  | Panic r => Panic r
  end.

(** The two run-time panics this package can raise. *)
Definition nilDereference : string :=
  "invalid memory address or nil pointer dereference".
Definition badAssertion : string := "interface conversion".

(** ** The query AST ([graphql/language/ast]) *)

(** [ast.Selection] is an interface; [*ast.Field] is one of the node types
    behind it, the two fragment forms are the others.  Of a field only
    [Name.Value] and [SelectionSet.Selections] are read by this package, so
    [Name] stands for the [*ast.Name] pointer with its [Value], and
    [SelectionSet] for the [*ast.SelectionSet] pointer with its
    [Selections]. *)
#[local] Set Warnings "-register-all".
Inductive Selection : Type :=
| Field (Name : option string) (SelectionSet : option (list Selection))
| FragmentSpread (Name : option string)
| InlineFragment (SelectionSet : option (list Selection)).

(** The elements of [p.Info.FieldASTs], of type [*ast.Field]. *)
Record FieldAST : Type := mkFieldAST {
  FieldName : option string;
  FieldSelectionSet : option (list Selection)
}.

Definition selectionOfField (f : FieldAST) : Selection :=
  Field (FieldName f) (FieldSelectionSet f).

(** Induction over selection trees, through the nested lists. *)
Section SelectionInduction.
Variable P : Selection -> Prop.
Hypothesis HField : forall name, P (Field name None).
Hypothesis HFieldSet :
  forall name selections, Forall P selections -> P (Field name (Some selections)).
Hypothesis HSpread : forall name, P (FragmentSpread name).
Hypothesis HInline : P (InlineFragment None).
Hypothesis HInlineSet :
  forall selections, Forall P selections -> P (InlineFragment (Some selections)).

Fixpoint Selection_nested_ind (selection : Selection) : P selection :=
  let all :=
    fix all (l : list Selection) : Forall P l :=
      match l with
      | [] => List.Forall_nil P
      | x :: l' => List.Forall_cons P x l' (Selection_nested_ind x) (all l')
      end in
  match selection with
  | Field name None => HField name
  | Field name (Some selections) => HFieldSet name selections (all selections)
  | FragmentSpread name => HSpread name
  | InlineFragment None => HInline
  | InlineFragment (Some selections) => HInlineSet selections (all selections)
  end.
End SelectionInduction.

(** ** Sub-query reprojection *)

(** The loop of [GetSubQuery] over [selections]: [collectQuery] starts
    empty and every iteration extends it; [body] is one iteration (it may
    panic). *)
Definition subQueryLoop (body : Selection -> string -> outcome string) :
    list Selection -> string -> outcome string :=
  fix loop (selections : list Selection) (collectQuery : string) :=
    match selections with
    | [] => Ret collectQuery
    | selection :: rest => obind (body selection collectQuery) (loop rest)
    end.

(** One iteration.  First [collectQuery += " " + name], where [name] is the
    [Name.Value] of [selection] asserted to a [*ast.Field]; then, when
    [SelectionSet != nil], [collectQuery += " { " + sub + " } "] with [sub]
    the recursive call on the nested selections.  The type assertion panics
    on a selection that is not a field, the name access on a nil [Name]. *)
Fixpoint appendSelection (selection : Selection) (collectQuery : string)
    : outcome string :=
  match selection with
  | Field None _ => Panic nilDereference
  | Field (Some name) None => Ret (collectQuery +:+ (" " +:+ name))
  | Field (Some name) (Some selections) =>
      let collectQuery := collectQuery +:+ (" " +:+ name) in
      obind (subQueryLoop appendSelection selections "") (fun sub =>
        Ret (collectQuery +:+ ((" { " +:+ sub) +:+ " } ")))
  | _ => Panic badAssertion
  end.

(** [GetSubQuery] returns a new query, which was the subquery. *)
Definition GetSubQuery (selections : list Selection) : outcome string :=
  subQueryLoop appendSelection selections "".

(** ** Go values of the package *)

(** [strfmt.UUID] is a named string type. *)
Definition UUID := string.

(** Go's [error] interface: errors made by [errors.New] and [fmt.Errorf] or
    handed back by the connector, and the errors made by
    [gqlerrors.NewError].  A [gqlError] records the six arguments of that
    call: the library keeps the message, the nodes, the stack and the
    original error as they are given; a nil source and empty positions it
    fills in from the locations of the nodes, which the selections here do
    not carry, so [Source] and [Positions] are the arguments and not the
    fields of the library's error. *)
Inductive error : Type :=
| errorString (s : string)
| gqlError (Message : string) (Nodes : list Selection) (Stack : string)
           (Source : option string) (Positions : list Z)
           (OriginalError : error).

(** The [Error()] method. *)
Definition Error (e : error) : string :=
  match e with
  | errorString s => s
  | gqlError m _ _ _ _ _ => m
  end.

(** The call [gqlerrors.NewError(message, nodes, stack, source, positions,
    origError)], recorded with its arguments. *)
Definition NewError (message : string) (nodes : list Selection)
    (stack : string) (source : option string) (positions : list Z)
    (origError : error) : error :=
  gqlError message nodes stack source positions origError.

Definition FieldASTsToNodeASTs (fields : list FieldAST) : list Selection :=
  map selectionOfField fields.

(** ** The models read by the resolvers ([package models]) *)

(** [models.SingleRef]: [LocationURL] is a [*string], dereferenced by
    [resolveCrossRef]; [RefType] is the field [Type]. *)
Record SingleRef : Type := mkSingleRef {
  NrDollarCref : UUID;
  LocationURL : option string;
  RefType : string
}.

Record ObjectSubject : Type := mkObjectSubject {
  Object : option SingleRef;
  Subject : option SingleRef
}.

Record KeyTokenGetResponse : Type := mkKeyTokenGetResponse {
  KeyID : UUID;
  Token : string;
  Email : string;
  IPOrigin : list string;
  KeyExpiresUnix : Z;
  Read : bool;
  Execute : bool;
  Write : bool;
  Delete : bool;
  Parent : option SingleRef
}.

Record ThingGetResponse : Type := mkThingGetResponse {
  ThingID : UUID;
  ThingAtContext : string;
  ThingAtClass : string;
  ThingCreationTimeUnix : Z;
  ThingLastUpdateTimeUnix : Z;
  ThingKey : option SingleRef
}.

(** [models.JSONObject] values are stored, never inspected. *)
Inductive JSONObject : Type := jsonObject (raw : string).

Record ActionGetResponse : Type := mkActionGetResponse {
  ActionID : UUID;
  ActionAtContext : string;
  ActionAtClass : string;
  ActionCreationTimeUnix : Z;
  ActionLastUpdateTimeUnix : Z;
  Things : option ObjectSubject;
  ActionKey : option SingleRef;
  Schema : option (gmap string JSONObject)
}.

(** The composite literals [models.X{}]: every field at its zero value. *)
Definition emptyKeyTokenGetResponse : KeyTokenGetResponse :=
  mkKeyTokenGetResponse "" "" "" [] 0 false false false false None.
Definition emptyThingGetResponse : ThingGetResponse :=
  mkThingGetResponse "" "" "" 0 0 None.
Definition emptyActionGetResponse : ActionGetResponse :=
  mkActionGetResponse "" "" "" 0 0 None None None.
Definition emptyObjectSubject : ObjectSubject := mkObjectSubject None None.

(** Dynamic values behind [interface{}]: resolver sources, arguments and
    results.  [VFloat64 z] is [float64(z)] for an [int64] [z];
    [VObjectSubjectPtr] is a [*models.ObjectSubject], possibly nil;
    [VOther] stands for a value of any other dynamic type. *)
Inductive Value : Type :=
| VNil
| VString (s : string)
| VUUID (u : UUID)
| VStrings (l : list string)
| VFloat64 (z : Z)
| VBool (b : bool)
| VKeyTokenGetResponse (key : KeyTokenGetResponse)
| VThingGetResponse (thing : ThingGetResponse)
| VActionGetResponse (action : ActionGetResponse)
| VObjectSubjectPtr (ref : option ObjectSubject)
| VOther (dynamicType : string).

(** The dynamic type of an interface value, which a type assertion tests. *)
Inductive DynType : Type :=
| TNil | TString | TUUID | TStrings | TFloat64 | TBool
| TKeyTokenGetResponse | TThingGetResponse | TActionGetResponse
| TObjectSubjectPtr | TOther (name : string).

Definition dynType (v : Value) : DynType :=
  match v with
  | VNil => TNil
  | VString _ => TString
  | VUUID _ => TUUID
  | VStrings _ => TStrings
  | VFloat64 _ => TFloat64
  | VBool _ => TBool
  | VKeyTokenGetResponse _ => TKeyTokenGetResponse
  | VThingGetResponse _ => TThingGetResponse
  | VActionGetResponse _ => TActionGetResponse
  | VObjectSubjectPtr _ => TObjectSubjectPtr
  | VOther n => TOther n
  end.

(** The two-valued assertions [x, ok := p.Source.(T)]: [Some x] when [ok]. *)
Definition asKeyTokenGetResponse (v : Value) : option KeyTokenGetResponse :=
  match v with VKeyTokenGetResponse key => Some key | _ => None end.
Definition asThingGetResponse (v : Value) : option ThingGetResponse :=
  match v with VThingGetResponse thing => Some thing | _ => None end.
Definition asActionGetResponse (v : Value) : option ActionGetResponse :=
  match v with VActionGetResponse action => Some action | _ => None end.
Definition asObjectSubjectPtr (v : Value) : option (option ObjectSubject) :=
  match v with VObjectSubjectPtr ref => Some ref | _ => None end.

(** The destination [objectLoaded interface{}] of [resolveCrossRef]: a
    pointer to a response, shown with the value it points to, or something
    else. *)
Inductive Loaded : Type :=
| PtrThingGetResponse (thing : ThingGetResponse)
| PtrActionGetResponse (action : ActionGetResponse)
| PtrKeyTokenGetResponse (key : KeyTokenGetResponse)
| PtrOther (dynamicType : string).

(** ** Collaborators *)

(** [dbconnector.DatabaseConnector], the three fetch operations used here.
    An operation fills the response it is given a pointer to and returns
    an error or nil. *)
Record DatabaseConnector : Type := mkDatabaseConnector {
  GetThing : UUID -> ThingGetResponse -> ThingGetResponse * option error;
  GetAction : UUID -> ActionGetResponse -> ActionGetResponse * option error;
  GetKey : UUID -> KeyTokenGetResponse -> KeyTokenGetResponse * option error
}.

(** Modelled from the spec: [config.WeaviateConfig] with its
    [GetHostAddress] method is declared outside these sources; it yields
    this node's own externally reachable address, as configured. *)
Record WeaviateConfig : Type := mkWeaviateConfig {
  GetHostAddress : string
}.

(** [graphql.Schema]; the zero value [graphql.Schema{}] has no query type. *)
Record GraphQLSchemaValue : Type := mkSchemaValue {
  QueryTypeName : option string
}.

(** [GraphQLSchema] has some basic variables. *)
Record GraphQLSchema : Type := mkGraphQLSchema {
  weaviateGraphQLSchema : GraphQLSchemaValue;
  serverConfig : WeaviateConfig;
  dbConnector : DatabaseConnector
}.

(** ** Calls and the resolver monad *)

(** The calls a resolution can make that the specification talks about:
    the connector's operations, the reprojection and the HTTP request. *)
Inductive Call : Type :=
| CallGetThing (id : UUID)
| CallGetAction (id : UUID)
| CallGetKey (id : UUID)
| CallGetSubQuery (selections : list Selection)
| CallDoRequest (hostname endpoint method : string).

(** A computation yields the calls it made, in order, and its outcome. *)
Definition M (A : Type) : Type := list Call * outcome A.

Definition retM {A} (a : A) : M A := ([], Ret a).
Definition panicM {A} (reason : string) : M A := ([], Panic reason).
Definition bindM {A B} (m : M A) (k : A -> M B) : M B :=
  match m with
  | (calls, Ret a) => let '(calls', r) := k a in ((calls ++ calls')%list, r)
  | (calls, Panic reason) => (calls, Panic reason)
  end.
Definition called {A} (c : Call) (a : A) : M A := ([c], Ret a).
Definition lift {A} (o : outcome A) : M A := ([], o).

Notation "x <- m ;; k" := (bindM m (fun x => k))
  (at level 100, m at next level, right associativity).

Definition calls {A} (m : M A) : list Call := m.1.

(** The connector's operations as calls. *)
Definition callGetThing (db : DatabaseConnector) (id : UUID)
    (thing : ThingGetResponse) : M (ThingGetResponse * option error) :=
  called (CallGetThing id) (GetThing db id thing).
Definition callGetAction (db : DatabaseConnector) (id : UUID)
    (action : ActionGetResponse) : M (ActionGetResponse * option error) :=
  called (CallGetAction id) (GetAction db id action).
Definition callGetKey (db : DatabaseConnector) (id : UUID)
    (key : KeyTokenGetResponse) : M (KeyTokenGetResponse * option error) :=
  called (CallGetKey id) (GetKey db id key).

(** ** The schema object *)

(** The address [&x] of an addressable operand: a pointer that is not nil. *)
Definition addressOf {A} (x : A) : option A := Some x.
Definition isNilPointer {A} (p : option A) : bool :=
  match p with None => true | Some _ => false end.

(** [NewGraphQLSchema] create a new schema object. *)
Definition NewGraphQLSchema (databaseConnector : DatabaseConnector)
    (config : WeaviateConfig) : GraphQLSchema :=
  mkGraphQLSchema (mkSchemaValue None) config databaseConnector.

(** [GetGraphQLSchema] returns the schema if it is set. *)
Definition GetGraphQLSchema (f : GraphQLSchema)
    : GraphQLSchemaValue * option error :=
  if isNilPointer (addressOf (weaviateGraphQLSchema f)) then
    (mkSchemaValue None,
     Some (errorString
       "schema is not initialized, perhaps you forget to run 'InitSchema'"))
  else (weaviateGraphQLSchema f, None).

(** ** Cross-reference resolution *)

Definition licenseRequired : string :=
  "a license for connection to another Weaviate-instance is required in order to resolve this query further".

(** The test of [resolveCrossRef]'s first [if]: the host address differs
    from [*cref.LocationURL].  Reading the location dereferences both
    [cref] and its [LocationURL]. *)
Definition locationIsRemote (f : GraphQLSchema) (cref : option SingleRef)
    : outcome bool :=
  match cref with
  | None => Panic nilDereference
  | Some ref =>
      match LocationURL ref with
      | None => Panic nilDereference
      | Some location =>
          Ret (negb (String.eqb (GetHostAddress (serverConfig f)) location))
      end
  end.

(** The [else] branch: the request by kind.  Each connector call asserts
    [objectLoaded] to the pointer type of its kind before it is made. *)
Definition resolveByType (db : DatabaseConnector) (cref : option SingleRef)
    (objectLoaded : Loaded) : M (Loaded * option error) :=
  match cref with
  | None => panicM nilDereference
  | Some ref =>
      if String.eqb (RefType ref) "Thing" then
        match objectLoaded with
        | PtrThingGetResponse thing =>
            r <- callGetThing db (NrDollarCref ref) thing ;;
            retM (PtrThingGetResponse r.1, r.2)
        | _ => panicM badAssertion
        end
      else if String.eqb (RefType ref) "Action" then
        match objectLoaded with
        | PtrActionGetResponse action =>
            r <- callGetAction db (NrDollarCref ref) action ;;
            retM (PtrActionGetResponse r.1, r.2)
        | _ => panicM badAssertion
        end
      else if String.eqb (RefType ref) "Key" then
        match objectLoaded with
        | PtrKeyTokenGetResponse key =>
            r <- callGetKey db (NrDollarCref ref) key ;;
            retM (PtrKeyTokenGetResponse r.1, r.2)
        | _ => panicM badAssertion
        end
      else
        retM (objectLoaded,
              Some (errorString
                      ("can't resolve the given type '" +:+ RefType ref +:+ "'")))
  end.

(** The destination has the pointer type that the kind [kind] asserts. *)
Definition destinationOf (kind : string) (objectLoaded : Loaded) : bool :=
  match objectLoaded with
  | PtrThingGetResponse _ => String.eqb kind "Thing"
  | PtrActionGetResponse _ => String.eqb kind "Action"
  | PtrKeyTokenGetResponse _ => String.eqb kind "Key"
  | PtrOther _ => false
  end.

(** The end of [resolveCrossRef]: a non-nil [err] is wrapped with the
    field nodes. *)
Definition wrapError (fields : list FieldAST) (err : option error)
    : option error :=
  match err with
  | Some err =>
      let stack := Error err in
      Some (NewError (Error err) (FieldASTsToNodeASTs fields) stack None [] err)
  | None => None
  end.

(** What [wrapError] makes of the plain error with message [msg]. *)
Definition resolutionError (fields : list FieldAST) (msg : string) : error :=
  gqlError msg (FieldASTsToNodeASTs fields) msg None [] (errorString msg).

(** The parts of a resolution that do not mention the field nodes: the
    calls, the loaded object and the message of the error. *)
Definition observable (m : M (Loaded * option error))
    : list Call * outcome (Loaded * option string) :=
  (m.1, match m.2 with
        | Ret r => Ret (r.1, Error <$> r.2)
        | Panic reason => Panic reason
        end).

(** Resolve a Cross reference.  The result pairs the object behind
    [objectLoaded] after the call with the returned error. *)
Definition resolveCrossRef (f : GraphQLSchema) (fields : list FieldAST)
    (cref : option SingleRef) (objectLoaded : Loaded)
    : M (Loaded * option error) :=
  remote <- lift (locationIsRemote f cref) ;;
  r <- (if remote : bool
        then retM (objectLoaded, Some (errorString licenseRequired))
        else resolveByType (dbConnector f) cref objectLoaded) ;;
  retM (r.1, wrapError fields r.2).

(** ** Field resolvers *)

Record ResolveInfo : Type := mkResolveInfo {
  FieldASTs : list FieldAST
}.

(** [graphql.ResolveParams]: [Args] is a [map[string]interface{}]. *)
Record ResolveParams : Type := mkResolveParams {
  Source : Value;
  Args : gmap string Value;
  Info : ResolveInfo
}.

Definition Resolver : Type := ResolveParams -> M (Value * option error).

(** A resolver that reads one field of the response behind [p.Source]. *)
Definition readField {R} (assert : Value -> option R) (read : R -> Value)
    : Resolver :=
  fun p =>
    match assert (Source p) with
    | Some response => retM (read response, None)
    | None => retM (VNil, None)
    end.

(** The response variable behind [objectLoaded], as the resolver returns
    it after the call. *)
Definition loadedValue (l : Loaded) : Value :=
  match l with
  | PtrThingGetResponse thing => VThingGetResponse thing
  | PtrActionGetResponse action => VActionGetResponse action
  | PtrKeyTokenGetResponse key => VKeyTokenGetResponse key
  | PtrOther _ => VNil
  end.

(** The tail shared by the reference resolvers: [resolveCrossRef] into the
    fresh response [empty], then the response with or without the error. *)
Definition resolveInto (f : GraphQLSchema) (p : ResolveParams)
    (cref : option SingleRef) (empty : Loaded) : M (Value * option error) :=
  r <- resolveCrossRef f (FieldASTs (Info p)) cref empty ;;
  match r.2 with
  | Some err => retM (loadedValue r.1, Some err)
  | None => retM (loadedValue r.1, None)
  end.

Section Resolvers.
Variable f : GraphQLSchema.

  (** *** keyType *)
Definition keyType_uuid : Resolver :=
    readField asKeyTokenGetResponse (fun key => VUUID (KeyID key)).
Definition keyType_token : Resolver :=
    readField asKeyTokenGetResponse (fun key => VString (Token key)).
Definition keyType_email : Resolver :=
    readField asKeyTokenGetResponse (fun key => VString (Email key)).
Definition keyType_ipOrigin : Resolver :=
    readField asKeyTokenGetResponse (fun key => VStrings (IPOrigin key)).
Definition keyType_keyExpiresUnix : Resolver :=
    readField asKeyTokenGetResponse (fun key => VFloat64 (KeyExpiresUnix key)).
Definition keyType_read : Resolver :=
    readField asKeyTokenGetResponse (fun key => VBool (Read key)).
Definition keyType_execute : Resolver :=
    readField asKeyTokenGetResponse (fun key => VBool (Execute key)).
Definition keyType_write : Resolver :=
    readField asKeyTokenGetResponse (fun key => VBool (Write key)).
Definition keyType_delete : Resolver :=
    readField asKeyTokenGetResponse (fun key => VBool (Delete key)).

Definition keyType_parent : Resolver := fun p =>
    let keyResponse := emptyKeyTokenGetResponse in
    match asKeyTokenGetResponse (Source p) with
    | Some key =>
        resolveInto f p (Parent key) (PtrKeyTokenGetResponse keyResponse)
    | None => retM (VKeyTokenGetResponse keyResponse, None)
    end.

  (** *** thingType *)
Definition thingType_atContext : Resolver :=
    readField asThingGetResponse (fun thing => VString (ThingAtContext thing)).
Definition thingType_atClass : Resolver :=
    readField asThingGetResponse (fun thing => VString (ThingAtClass thing)).
Definition thingType_creationTimeUnix : Resolver :=
    readField asThingGetResponse
      (fun thing => VFloat64 (ThingCreationTimeUnix thing)).
Definition thingType_lastUpdateTimeUnix : Resolver :=
    readField asThingGetResponse
      (fun thing => VFloat64 (ThingLastUpdateTimeUnix thing)).
Definition thingType_uuid : Resolver :=
    readField asThingGetResponse (fun thing => VUUID (ThingID thing)).

Definition thingType_key : Resolver := fun p =>
    let keyResponse := emptyKeyTokenGetResponse in
    match asThingGetResponse (Source p) with
    | Some thing =>
        resolveInto f p (ThingKey thing) (PtrKeyTokenGetResponse keyResponse)
    | None => retM (VKeyTokenGetResponse keyResponse, None)
    end.

  (** *** objectSubjectType; the source is a [*models.ObjectSubject], and
      reading its fields dereferences it. *)
Definition objectSubjectType_object : Resolver := fun p =>
    let thingResponse := emptyThingGetResponse in
    match asObjectSubjectPtr (Source p) with
    | Some (Some ref) =>
        resolveInto f p (Object ref) (PtrThingGetResponse thingResponse)
    | Some None => panicM nilDereference
    | None => retM (VThingGetResponse thingResponse, None)
    end.

Definition objectSubjectType_subject : Resolver := fun p =>
    let thingResponse := emptyThingGetResponse in
    match asObjectSubjectPtr (Source p) with
    | Some (Some ref) =>
        resolveInto f p (Subject ref) (PtrThingGetResponse thingResponse)
    | Some None => panicM nilDereference
    | None => retM (VThingGetResponse thingResponse, None)
    end.

  (** *** actionType *)
Definition actionType_atContext : Resolver :=
    readField asActionGetResponse
      (fun action => VString (ActionAtContext action)).
Definition actionType_atClass : Resolver :=
    readField asActionGetResponse (fun action => VString (ActionAtClass action)).
Definition actionType_creationTimeUnix : Resolver :=
    readField asActionGetResponse
      (fun action => VFloat64 (ActionCreationTimeUnix action)).
Definition actionType_lastUpdateTimeUnix : Resolver :=
    readField asActionGetResponse
      (fun action => VFloat64 (ActionLastUpdateTimeUnix action)).
Definition actionType_uuid : Resolver :=
    readField asActionGetResponse (fun action => VUUID (ActionID action)).
Definition actionType_things : Resolver :=
    readField asActionGetResponse
      (fun action => VObjectSubjectPtr (Things action)).

Definition actionType_key : Resolver := fun p =>
    let keyResponse := emptyKeyTokenGetResponse in
    match asActionGetResponse (Source p) with
    | Some action =>
        resolveInto f p (ActionKey action) (PtrKeyTokenGetResponse keyResponse)
    | None => retM (VKeyTokenGetResponse keyResponse, None)
    end.

  (** *** queryType: here does the query resolving start.  The argument is
      read with the one-valued assertion [p.Args["id"].(string)]. *)
Definition argID (p : ResolveParams) : M UUID :=
    match Args p !! "id" with
    | Some (VString id) => retM id
    | _ => panicM badAssertion
    end.

Definition queryType_thing : Resolver := fun p =>
    let thingResponse := emptyThingGetResponse in
    id <- argID p ;;
    r <- callGetThing (dbConnector f) id thingResponse ;;
    match r.2 with
    | Some err => retM (VThingGetResponse r.1, Some err)
    | None => retM (VThingGetResponse r.1, None)
    end.

Definition queryType_action : Resolver := fun p =>
    let actionResponse :=
      mkActionGetResponse "" "" "" 0 0 (Some emptyObjectSubject) None (Some ∅) in
    id <- argID p ;;
    r <- callGetAction (dbConnector f) id actionResponse ;;
    match r.2 with
    | Some err => retM (VActionGetResponse r.1, Some err)
    | None => retM (VActionGetResponse r.1, None)
    end.

Definition queryType_key : Resolver := fun p =>
    let keyResponse := emptyKeyTokenGetResponse in
    id <- argID p ;;
    r <- callGetKey (dbConnector f) id keyResponse ;;
    match r.2 with
    | Some err => retM (VKeyTokenGetResponse r.1, Some err)
    | None => retM (VKeyTokenGetResponse r.1, None)
    end.
End Resolvers.

(** ** The schema graph *)

(** The object types that [InitSchema] builds. *)
Inductive ObjectType : Type :=
| keyType | thingType | objectSubjectType | actionType | queryType.

(** The [graphql.Fields] of each object type, by field name, with the
    [Resolve] function of the field.  [parent] is added to [keyType] with
    [AddFieldConfig] once [keyType] exists. *)
Definition Fields (f : GraphQLSchema) (t : ObjectType) : gmap string Resolver :=
  match t with
  | keyType =>
      <["parent" := keyType_parent f]>
      (<["uuid" := keyType_uuid]>
      (<["token" := keyType_token]>
      (<["email" := keyType_email]>
      (<["ipOrigin" := keyType_ipOrigin]>
      (<["keyExpiresUnix" := keyType_keyExpiresUnix]>
      (<["read" := keyType_read]>
      (<["execute" := keyType_execute]>
      (<["write" := keyType_write]>
      (<["delete" := keyType_delete]> ∅)))))))))
  | thingType =>
      <["atContext" := thingType_atContext]>
      (<["atClass" := thingType_atClass]>
      (<["creationTimeUnix" := thingType_creationTimeUnix]>
      (<["lastUpdateTimeUnix" := thingType_lastUpdateTimeUnix]>
      (<["uuid" := thingType_uuid]>
      (<["key" := thingType_key f]> ∅)))))
  | objectSubjectType =>
      <["object" := objectSubjectType_object f]>
      (<["subject" := objectSubjectType_subject f]> ∅)
  | actionType =>
      <["atContext" := actionType_atContext]>
      (<["atClass" := actionType_atClass]>
      (<["creationTimeUnix" := actionType_creationTimeUnix]>
      (<["lastUpdateTimeUnix" := actionType_lastUpdateTimeUnix]>
      (<["uuid" := actionType_uuid]>
      (<["things" := actionType_things]>
      (<["key" := actionType_key f]> ∅))))))
  | queryType =>
      <["thing" := queryType_thing f]>
      (<["action" := queryType_action f]>
      (<["key" := queryType_key f]> ∅))
  end.

(** The dynamic type to which the resolvers of an object type assert
    [p.Source]; the resolvers of [queryType] do not read [p.Source]. *)
Definition sourceType (t : ObjectType) : option DynType :=
  match t with
  | keyType => Some TKeyTokenGetResponse
  | thingType => Some TThingGetResponse
  | objectSubjectType => Some TObjectSubjectPtr
  | actionType => Some TActionGetResponse
  | queryType => None
  end.

(** The values a resolver falls back to: nil, or a response left as its
    composite literal made it. *)
Definition isEmptyValue (v : Value) : Prop :=
  v = VNil \/ v = VKeyTokenGetResponse emptyKeyTokenGetResponse
  \/ v = VThingGetResponse emptyThingGetResponse.

(** ** The field-selection grammar *)

(** Modelled from the spec: the query engine that parses field lists is a
    collaborator outside these sources.  What follows is the field-selection
    grammar the specification refers to: names, brace-delimited nested
    blocks, and insignificant white space and commas. *)
Inductive token : Type :=
| TName (name : string)
| TLBrace
| TRBrace.

Definition inRange (lo hi : N) (c : ascii) : bool :=
  ((lo <=? N_of_ascii c) && (N_of_ascii c <=? hi))%N.
Definition isNameStart (c : ascii) : bool :=
  inRange 65 90 c || inRange 97 122 c || Ascii.eqb c "_".
Definition isNameChar (c : ascii) : bool :=
  isNameStart c || inRange 48 57 c.
Definition isIgnored (c : ascii) : bool :=
  Ascii.eqb c " " || Ascii.eqb c "009" || Ascii.eqb c "010"
  || Ascii.eqb c "013" || Ascii.eqb c ",".

Fixpoint allNameChars (s : string) : bool :=
  match s with
  | EmptyString => true
  | String c s' => isNameChar c && allNameChars s'
  end.

(** A name: a letter or underscore, then letters, digits and underscores. *)
Definition validName (s : string) : bool :=
  match s with
  | EmptyString => false
  | String c _ => isNameStart c && allNameChars s
  end.

(** Closes the name read so far, if any, in front of the tokens [ts]. *)
Definition flushName (cur : string) (ts : list token) : option (list token) :=
  match cur with
  | EmptyString => Some ts
  | String c _ => if isNameStart c then Some (TName cur :: ts) else None
  end.

(** Modelled from the spec: the lexer of the query engine, for the tokens
    above; [cur] holds the characters of the name being read. *)
Fixpoint lexFrom (cur : string) (s : string) : option (list token) :=
  match s with
  | EmptyString => flushName cur []
  | String c s' =>
      if isNameChar c then lexFrom (cur +:+ String c EmptyString) s'
      else if isIgnored c then lexFrom "" s' ≫= flushName cur
      else if Ascii.eqb c "{" then
        lexFrom "" s' ≫= (fun ts => flushName cur (TLBrace :: ts))
      else if Ascii.eqb c "}" then
        lexFrom "" s' ≫= (fun ts => flushName cur (TRBrace :: ts))
      else None
  end.

Definition lex (s : string) : option (list token) := lexFrom "" s.

(** Two texts are the same up to white space when they lex to the same
    tokens. *)
Definition sameTokens (s1 s2 : string) : Prop :=
  exists ts, lex s1 = Some ts /\ lex s2 = Some ts.

(** Modelled from the spec: the parser of the query engine, for a field
    list: fields up to a closing brace or the end; a field is a name,
    optionally followed by a block that holds at least one field.  [fuel]
    bounds the recursion depth. *)
Fixpoint parseSelections (fuel : nat) (ts : list token)
    : option (list Selection * list token) :=
  match fuel with
  | O => None
  | S fuel' =>
      match ts with
      | TName name :: TLBrace :: ts1 =>
          match parseSelections fuel' ts1 with
          | Some (sub, TRBrace :: ts2) =>
              match sub with
              | [] => None
              | _ :: _ =>
                  match parseSelections fuel' ts2 with
                  | Some (rest, ts3) =>
                      Some (Field (Some name) (Some sub) :: rest, ts3)
                  | None => None
                  end
              end
          | _ => None
          end
      | TName name :: ts1 =>
          match parseSelections fuel' ts1 with
          | Some (rest, ts2) => Some (Field (Some name) None :: rest, ts2)
          | None => None
          end
      | _ => Some ([], ts)
      end
  end.

(** Modelled from the spec: parsing a text with the query engine; all of
    the text must be a field list. *)
Definition parse (s : string) : option (list Selection) :=
  match lex s with
  | Some ts =>
      match parseSelections (S (length ts)) ts with
      | Some (selections, []) => Some selections
      | _ => None
      end
  | None => None
  end.

(** The tokens of a selection tree in depth-first, left-to-right order, a
    nested selection as a brace-delimited block right after its field
    name. *)
Fixpoint tokensOf (selection : Selection) : list token :=
  match selection with
  | Field (Some name) None => [TName name]
  | Field (Some name) (Some selections) =>
      TName name :: TLBrace :: concat (map tokensOf selections) ++ [TRBrace]
  | _ => []
  end.
Definition tokensOfAll (selections : list Selection) : list token :=
  concat (map tokensOf selections).

(** Selection trees made of field nodes with valid names: what the
    specification calls a parsed selection subtree. *)
Fixpoint fieldTree (selection : Selection) : bool :=
  match selection with
  | Field (Some name) None => validName name
  | Field (Some name) (Some selections) =>
      validName name && forallb fieldTree selections
  | _ => false
  end.

(** Every block of the tree holds at least one selection. *)
Fixpoint blocksNonEmpty (selection : Selection) : bool :=
  match selection with
  | Field _ (Some selections) =>
      match selections with [] => false | _ :: _ => true end
      && forallb blocksNonEmpty selections
  | InlineFragment (Some selections) =>
      match selections with [] => false | _ :: _ => true end
      && forallb blocksNonEmpty selections
  | _ => true
  end.

(** A text that does not go on with a name character. *)
Definition noNameHead (s : string) : bool :=
  match s with
  | EmptyString => true
  | String c _ => negb (isNameChar c)
  end.

Definition validToken (t : token) : bool :=
  match t with
  | TName name => validName name
  | _ => true
  end.

(** Tokens at which a field list ends. *)
Definition endsFieldList (ts : list token) : bool :=
  match ts with
  | [] | TRBrace :: _ => true
  | _ => false
  end.

(** What the parser produces: field trees with non-empty blocks. *)
Definition wellFormed (selections : list Selection) : bool :=
  forallb fieldTree selections && forallb blocksNonEmpty selections.

(** The reprojection [o] returns a text that lexes to the tokens [toks],
    also with more text behind it. *)
Definition rendersTo (o : outcome string) (toks : list token) : Prop :=
  exists text,
    o = Ret text
    /\ (forall rest, noNameHead rest = true -> noNameHead (text +:+ rest) = true)
    /\ (forall rest ts,
          noNameHead rest = true -> lexFrom "" rest = Some ts ->
          lexFrom "" (text +:+ rest) = Some (toks ++ ts)%list).

(** ** Example data *)

Definition scenarioD : list Selection :=
  [Field (Some "uuid") None;
   Field (Some "key")
     (Some [Field (Some "uuid") None; Field (Some "token") None])].

(** A connector with one thing, one action and one key. *)
Definition exampleConnector : DatabaseConnector :=
  mkDatabaseConnector
    (fun id thing =>
       if String.eqb id "T1"
       then (mkThingGetResponse "T1" "ctx" "City" 10 0
               (Some (mkSingleRef "K1" (Some "localhost:8080") "Key")), None)
       else (thing, Some (errorString "thing not found")))
    (fun id action =>
       if String.eqb id "A1"
       then (mkActionGetResponse "A1" "ctx" "Move" 11 0
               (Some (mkObjectSubject
                        (Some (mkSingleRef "T1" (Some "localhost:8080") "Thing"))
                        (Some (mkSingleRef "T1" (Some "peer:8080") "Thing"))))
               (Some (mkSingleRef "K1" (Some "peer:8080") "Key")) (Some ∅),
             None)
       else (action, Some (errorString "action not found")))
    (fun id key =>
       if String.eqb id "K1"
       then (mkKeyTokenGetResponse "K1" "secret" "k@example.org" [] 99
               true true true true None, None)
       else (key, Some (errorString "key not found"))).

Definition exampleSchema : GraphQLSchema :=
  NewGraphQLSchema exampleConnector (mkWeaviateConfig "localhost:8080").

Definition exampleFields : list FieldAST :=
  [mkFieldAST (Some "key") (Some [Field (Some "uuid") None])].

(** The field [key] selected through a fragment spread. *)
Definition fragmentFields : list FieldAST :=
  [mkFieldAST (Some "key") (Some [FragmentSpread (Some "keyFields")])].

Definition localRef (id kind : string) : SingleRef :=
  mkSingleRef id (Some "localhost:8080") kind.
Definition remoteRef (id kind : string) : SingleRef :=
  mkSingleRef id (Some "peer:8080") kind.

Definition exampleParams (source : Value) (id : string) : ResolveParams :=
  mkResolveParams source {["id" := VString id]} (mkResolveInfo exampleFields).

(** ** Building the schema *)

(** [graphql.SchemaConfig] as [InitSchema] fills it: the query root, with
    the fields of the object types reachable from it. *)
Record SchemaConfig : Type := mkSchemaConfig {
  Query : ObjectType;
  TypeFields : ObjectType -> gmap string Resolver
}.

(** [InitSchema] the GraphQL schema.  [NewSchema] is [graphql.NewSchema];
    both of its results are assigned, the schema to the struct.  The result
    is the struct afterwards, the lines given to [log.Println] and the
    returned error. *)
Definition InitSchema
    (NewSchema : SchemaConfig -> GraphQLSchemaValue * option error)
    (f : GraphQLSchema) : GraphQLSchema * list string * option error :=
  let r := NewSchema (mkSchemaConfig queryType (Fields f)) in
  (mkGraphQLSchema r.1 (serverConfig f) (dbConnector f),
   ["INFO: GraphQL initialisation finished."],
   r.2).

(** Selections that are fields with a name, all the way down: the ones
    the assertions and the name access of [GetSubQuery] accept. *)
Fixpoint namedField (selection : Selection) : bool :=
  match selection with
  | Field (Some _) None => true
  | Field (Some _) (Some selections) => forallb namedField selections
  | _ => false
  end.

(** The three kinds [resolveCrossRef] knows. *)
Definition knownKind (kind : string) : bool :=
  String.eqb kind "Thing" || String.eqb kind "Action" || String.eqb kind "Key".

(** ** The request function *)

(** [http.Transport] with the fields [doRequest] sets; the timeout in
    seconds. *)
Record HTTPTransport : Type := mkHTTPTransport {
  MaxIdleConns : Z;
  IdleConnTimeout : Z;
  DisableCompression : bool
}.

(** [http.Request]: [Header] maps a key to its values; [Body] is the
    [io.Reader], nil or with its content. *)
Record HTTPRequest : Type := mkHTTPRequest {
  Method : string;
  URL : string;
  Header : gmap string (list string);
  Body : option string
}.

Inductive HTTPResponse : Type := httpResponse (status : Z) (body : string).

(** The parts of [net/http] that [doRequest] calls: [http.NewRequest]
    gives a request or nil, and an error; [Header.Set] stores under the
    canonical form of the key; [client.Do] sends a request. *)
Record NetHTTP : Type := mkNetHTTP {
  NewRequest : string -> string -> option string
               -> option HTTPRequest * option error;
  CanonicalHeaderKey : string -> string;
  Do : HTTPTransport -> HTTPRequest -> option HTTPResponse * option error
}.

(** [req.Header.Set(key, value)]. *)
Definition HeaderSet (net : NetHTTP) (key value : string) (req : HTTPRequest)
    : HTTPRequest :=
  mkHTTPRequest (Method req) (URL req)
    (<[CanonicalHeaderKey net key := [value]]> (Header req)) (Body req).

(** Request function.  The error of [http.NewRequest] is dropped, and the
    headers are set on whatever request it gave.  The result lists the
    requests sent. *)
Definition doRequest (net : NetHTTP) (hostname endpoint method : string)
    (body : option string) (apiKey : string)
    : list HTTPRequest * outcome (option HTTPResponse * option error) :=
  let tr := mkHTTPTransport 10 30 true in
  match (NewRequest net method
           ((("http://" +:+ hostname) +:+ "/") +:+ endpoint) body).1 with
  | None => ([], Panic nilDereference)
  | Some req =>
      let req := HeaderSet net "Content-Type" "application/json" req in
      let req := HeaderSet net "Accept" "application/json" req in
      let req :=
        if negb (String.eqb apiKey "")
        then HeaderSet net "X-API-KEY" apiKey req else req in
      ([req], Ret (Do net tr req))
  end.

(** ** The generated client ([client/graphql]) *)

Module GraphqlClient.

(** Collaborators of the client that it only passes on. *)
Inductive Registry : Type := registry (name : string).
Inductive Context : Type := context (name : string).
Inductive HTTPClient : Type := httpClient (name : string).

(** The parameter structs: the [Context] and [HTTPClient] that the client
    reads, and the rest. *)
Record WeaviateGraphqlBatchParams : Type := mkBatchParams {
  BatchRest : string;
  BatchContext : option Context;
  BatchHTTPClient : option HTTPClient
}.
Record WeaviateGraphqlPostParams : Type := mkPostParams {
  PostRest : string;
  PostContext : option Context;
  PostHTTPClient : option HTTPClient
}.

Inductive WeaviateGraphqlBatchOK : Type := batchOK (payload : string).
Inductive WeaviateGraphqlPostOK : Type := postOK (payload : string).

Inductive OperationParams : Type :=
| ParamsBatch (params : WeaviateGraphqlBatchParams)
| ParamsPost (params : WeaviateGraphqlPostParams).

Inductive OperationReader : Type :=
| WeaviateGraphqlBatchReader (formats : Registry)
| WeaviateGraphqlPostReader (formats : Registry).

(** [runtime.ClientOperation]; [OpMethod], [OpContext] and [OpClient] are
    its fields [Method], [Context] and [Client]. *)
Record ClientOperation : Type := mkClientOperation {
  ID : string;
  OpMethod : string;
  PathPattern : string;
  ProducesMediaTypes : list string;
  ConsumesMediaTypes : list string;
  Schemes : list string;
  Params : OperationParams;
  Reader : OperationReader;
  OpContext : option Context;
  OpClient : option HTTPClient
}.

(** What [Submit] hands back behind [interface{}]; the two pointers may be
    nil. *)
Inductive SubmitResult : Type :=
| ResultNil
| ResultBatchOK (ok : option WeaviateGraphqlBatchOK)
| ResultPostOK (ok : option WeaviateGraphqlPostOK)
| ResultOther (dynamicType : string).

(** [runtime.ClientTransport]. *)
Record ClientTransport : Type := mkClientTransport {
  Submit : ClientOperation -> SubmitResult * option error
}.

(** Client for graphql API. *)
Record Client : Type := mkClient {
  transport : ClientTransport;
  formats : Registry
}.

(** [New] creates a new graphql API client. *)
Definition New (transport : ClientTransport) (formats : Registry) : Client :=
  mkClient transport formats.

(** [SetTransport] changes the transport on the client. *)
Definition SetTransport (a : Client) (transport : ClientTransport) : Client :=
  mkClient transport (formats a).

Section Operations.
(** The constructors of the default parameters, declared next to the
    parameter structs. *)
Variable NewWeaviateGraphqlBatchParams : WeaviateGraphqlBatchParams.
Variable NewWeaviateGraphqlPostParams : WeaviateGraphqlPostParams.

Definition batchOperation (a : Client) (params : WeaviateGraphqlBatchParams)
    : ClientOperation :=
  mkClientOperation "weaviate.graphql.batch" "POST" "/graphql/batch"
    ["application/json"] ["application/json"; "application/yaml"] ["https"]
    (ParamsBatch params) (WeaviateGraphqlBatchReader (formats a))
    (BatchContext params) (BatchHTTPClient params).

Definition postOperation (a : Client) (params : WeaviateGraphqlPostParams)
    : ClientOperation :=
  mkClientOperation "weaviate.graphql.post" "POST" "/graphql"
    ["application/json"] ["application/json"; "application/yaml"] ["https"]
    (ParamsPost params) (WeaviateGraphqlPostReader (formats a))
    (PostContext params) (PostHTTPClient params).

(** [WeaviateGraphqlBatch] performs a batched GraphQL query.  The result
    lists the operations submitted. *)
Definition WeaviateGraphqlBatch (a : Client)
    (params : option WeaviateGraphqlBatchParams)
    : list ClientOperation
      * outcome (option WeaviateGraphqlBatchOK * option error) :=
  let params :=
    match params with
    | None => NewWeaviateGraphqlBatchParams
    | Some params => params
    end in
  let op := batchOperation a params in
  let r := Submit (transport a) op in
  match r.2 with
  | Some err => ([op], Ret (None, Some err))
  | None =>
      match r.1 with
      | ResultBatchOK ok => ([op], Ret (ok, None))
      | _ => ([op], Panic badAssertion)
      end
  end.

(** [WeaviateGraphqlPost] gets an object based on GraphQL. *)
Definition WeaviateGraphqlPost (a : Client)
    (params : option WeaviateGraphqlPostParams)
    : list ClientOperation
      * outcome (option WeaviateGraphqlPostOK * option error) :=
  let params :=
    match params with
    | None => NewWeaviateGraphqlPostParams
    | Some params => params
    end in
  let op := postOperation a params in
  let r := Submit (transport a) op in
  match r.2 with
  | Some err => ([op], Ret (None, Some err))
  | None =>
      match r.1 with
      | ResultPostOK ok => ([op], Ret (ok, None))
      | _ => ([op], Panic badAssertion)
      end
  end.
End Operations.

End GraphqlClient.

(** ** More example data *)

(** A [net/http] that refuses every host with a space in front. *)
Definition exampleNet : NetHTTP :=
  mkNetHTTP
    (fun method url body =>
       if String.prefix "http:// " url
       then (None, Some (errorString "invalid character in host name"))
       else (Some (mkHTTPRequest method url ∅ body), None))
    (fun key => if String.eqb key "X-API-KEY" then "X-Api-Key" else key)
    (fun tr req => (Some (httpResponse 200 (URL req)), None)).

(** A transport that answers every post and fails every batch. *)
Definition exampleTransport : GraphqlClient.ClientTransport :=
  GraphqlClient.mkClientTransport
    (fun op =>
       if String.eqb (GraphqlClient.ID op) "weaviate.graphql.post"
       then (GraphqlClient.ResultPostOK (Some (GraphqlClient.postOK "data")),
             None)
       else (GraphqlClient.ResultNil, Some (errorString "batch refused"))).

(** A transport that answers nil without an error. *)
Definition silentTransport : GraphqlClient.ClientTransport :=
  GraphqlClient.mkClientTransport (fun _ => (GraphqlClient.ResultNil, None)).

Definition exampleClient : GraphqlClient.Client :=
  GraphqlClient.New exampleTransport (GraphqlClient.registry "default").

Definition defaultBatchParams : GraphqlClient.WeaviateGraphqlBatchParams :=
  GraphqlClient.mkBatchParams "" None None.
Definition defaultPostParams : GraphqlClient.WeaviateGraphqlPostParams :=
  GraphqlClient.mkPostParams "" None None.

(** A [graphql.NewSchema] that refuses every configuration. *)
Definition failingNewSchema (config : SchemaConfig)
    : GraphQLSchemaValue * option error :=
  (mkSchemaValue None, Some (errorString "schema rejected")).

(** A thing owned by a key on this node, and a key with a remote parent. *)
Definition exampleThing : ThingGetResponse :=
  mkThingGetResponse "T1" "ctx" "City" 10 0 (Some (localRef "K1" "Key")).
Definition exampleKey : KeyTokenGetResponse :=
  mkKeyTokenGetResponse "K2" "token" "k2@example.org" [] 99
    true false false false (Some (remoteRef "K1" "Key")).

(** * Properties *)

(** ** The resolver monad *)

Lemma bindM_retM {A B} (a : A) (k : A -> M B) : bindM (retM a) k = k a.
Proof. unfold bindM, retM. by destruct (k a). Qed.

Lemma bindM_called {A B} c (a : A) (k : A -> M B) :
  bindM (called c a) k = (c :: (k a).1, (k a).2).
Proof. unfold bindM, called. by destruct (k a). Qed.

Lemma bindM_lift_Ret {A B} (a : A) (k : A -> M B) : bindM (lift (Ret a)) k = k a.
Proof. apply bindM_retM. Qed.

(** ** The federation test *)

Lemma locationIsRemote_present f ref location :
  LocationURL ref = Some location ->
  locationIsRemote f (Some ref) =
    Ret (negb (String.eqb (GetHostAddress (serverConfig f)) location)).
Proof. intros H. unfold locationIsRemote. by rewrite H. Qed.

Lemma locationIsRemote_local f ref :
  LocationURL ref = Some (GetHostAddress (serverConfig f)) ->
  locationIsRemote f (Some ref) = Ret false.
Proof.
  intros H. rewrite (locationIsRemote_present _ _ _ H).
  by rewrite String.eqb_refl.
Qed.

Lemma locationIsRemote_other f ref location :
  LocationURL ref = Some location ->
  location <> GetHostAddress (serverConfig f) ->
  locationIsRemote f (Some ref) = Ret true.
Proof.
  intros H Hne. rewrite (locationIsRemote_present _ _ _ H).
  destruct (String.eqb_spec (GetHostAddress (serverConfig f)) location);
    [congruence | done].
Qed.

Lemma resolveCrossRef_local f fields ref objectLoaded :
  LocationURL ref = Some (GetHostAddress (serverConfig f)) ->
  resolveCrossRef f fields (Some ref) objectLoaded =
    (r <- resolveByType (dbConnector f) (Some ref) objectLoaded ;;
     retM (r.1, wrapError fields r.2)).
Proof.
  intros H. unfold resolveCrossRef.
  by rewrite (locationIsRemote_local _ _ H), bindM_lift_Ret.
Qed.

Lemma resolveCrossRef_remote f fields ref location objectLoaded :
  LocationURL ref = Some location ->
  location <> GetHostAddress (serverConfig f) ->
  resolveCrossRef f fields (Some ref) objectLoaded =
    ([], Ret (objectLoaded, Some (resolutionError fields licenseRequired))).
Proof.
  intros H Hne. unfold resolveCrossRef.
  by rewrite (locationIsRemote_other _ _ _ H Hne), bindM_lift_Ret, bindM_retM.
Qed.


Lemma resolveByType_Thing db ref thing :
  RefType ref = "Thing" ->
  resolveByType db (Some ref) (PtrThingGetResponse thing) =
    ([CallGetThing (NrDollarCref ref)],
     Ret (PtrThingGetResponse (GetThing db (NrDollarCref ref) thing).1,
          (GetThing db (NrDollarCref ref) thing).2)).
Proof. intros H. unfold resolveByType. by rewrite H. Qed.

Lemma resolveByType_Action db ref action :
  RefType ref = "Action" ->
  resolveByType db (Some ref) (PtrActionGetResponse action) =
    ([CallGetAction (NrDollarCref ref)],
     Ret (PtrActionGetResponse (GetAction db (NrDollarCref ref) action).1,
          (GetAction db (NrDollarCref ref) action).2)).
Proof. intros H. unfold resolveByType. by rewrite H. Qed.

Lemma resolveByType_Key db ref key :
  RefType ref = "Key" ->
  resolveByType db (Some ref) (PtrKeyTokenGetResponse key) =
    ([CallGetKey (NrDollarCref ref)],
     Ret (PtrKeyTokenGetResponse (GetKey db (NrDollarCref ref) key).1,
          (GetKey db (NrDollarCref ref) key).2)).
Proof. intros H. unfold resolveByType. by rewrite H. Qed.

Lemma resolveByType_mismatch db ref objectLoaded :
  RefType ref = "Thing" \/ RefType ref = "Action" \/ RefType ref = "Key" ->
  destinationOf (RefType ref) objectLoaded = false ->
  resolveByType db (Some ref) objectLoaded = ([], Panic badAssertion).
Proof.
  intros Hk Hd. unfold resolveByType.
  destruct Hk as [H|[H|H]]; rewrite H in *; simpl;
    destruct objectLoaded; simpl in *; done.
Qed.

(** ** Cross-reference resolution *)

(** C1, as the code has it.  Take a reference with a declared location.
    When the location is this node's configured address the federation test
    lets the resolution through to the request by kind: a reference of kind
    Thing, Action or Key, resolved into a destination of that kind, makes
    exactly one connector call of that kind for the reference's identifier
    and returns what the connector returned; a reference of any other kind
    makes no connector call and returns the error naming the kind.  For any
    other location the resolution returns an error whose message is the
    constant [licenseRequired], whatever the reference, the fields and the
    destination are, makes no connector call and leaves the destination
    as it was. *)
Theorem resolveCrossRef_federation_gate f fields ref location objectLoaded :
  LocationURL ref = Some location ->
  let db := dbConnector f in
  let id := NrDollarCref ref in
  (location = GetHostAddress (serverConfig f) ->
     locationIsRemote f (Some ref) = Ret false
     /\ (RefType ref = "Thing" ->
         forall thing, objectLoaded = PtrThingGetResponse thing ->
         resolveCrossRef f fields (Some ref) objectLoaded =
           ([CallGetThing id],
            Ret (PtrThingGetResponse (GetThing db id thing).1,
                 wrapError fields (GetThing db id thing).2)))
     /\ (RefType ref = "Action" ->
         forall action, objectLoaded = PtrActionGetResponse action ->
         resolveCrossRef f fields (Some ref) objectLoaded =
           ([CallGetAction id],
            Ret (PtrActionGetResponse (GetAction db id action).1,
                 wrapError fields (GetAction db id action).2)))
     /\ (RefType ref = "Key" ->
         forall key, objectLoaded = PtrKeyTokenGetResponse key ->
         resolveCrossRef f fields (Some ref) objectLoaded =
           ([CallGetKey id],
            Ret (PtrKeyTokenGetResponse (GetKey db id key).1,
                 wrapError fields (GetKey db id key).2)))
     /\ (knownKind (RefType ref) = false ->
         resolveCrossRef f fields (Some ref) objectLoaded =
           ([], Ret (objectLoaded,
                     Some (resolutionError fields
                             ("can't resolve the given type '"
                              +:+ RefType ref +:+ "'"))))))
  /\
  (location <> GetHostAddress (serverConfig f) ->
     locationIsRemote f (Some ref) = Ret true /\
     resolveCrossRef f fields (Some ref) objectLoaded =
       ([], Ret (objectLoaded, Some (resolutionError fields licenseRequired)))).
Proof.
  intros H db id. split.
  - intros ->. split; [by apply locationIsRemote_local|].
    rewrite (resolveCrossRef_local _ _ _ _ H). repeat split.
    + intros Hk thing ->. by rewrite resolveByType_Thing.
    + intros Hk action ->. by rewrite resolveByType_Action.
    + intros Hk key ->. by rewrite resolveByType_Key.
    + unfold knownKind. rewrite !orb_false_iff.
      intros [[HT HA] HK]. unfold resolveByType.
      by rewrite HT, HA, HK, bindM_retM.
  - intros Hne. split.
    + by eapply locationIsRemote_other.
    + by eapply resolveCrossRef_remote.
Qed.

Lemma resolveCrossRef_federation_gate_witness :
  (LocationURL (localRef "K1" "Key")
     = Some (GetHostAddress (serverConfig exampleSchema)) /\
   resolveCrossRef exampleSchema exampleFields (Some (localRef "K1" "Key"))
       (PtrKeyTokenGetResponse emptyKeyTokenGetResponse) =
     ([CallGetKey "K1"],
      Ret (PtrKeyTokenGetResponse
             (mkKeyTokenGetResponse "K1" "secret" "k@example.org" [] 99
                true true true true None), None)))
  /\
  (LocationURL (remoteRef "K1" "Key") = Some "peer:8080" /\
   resolveCrossRef exampleSchema exampleFields (Some (remoteRef "K1" "Key"))
       (PtrKeyTokenGetResponse emptyKeyTokenGetResponse) =
     ([], Ret (PtrKeyTokenGetResponse emptyKeyTokenGetResponse,
               Some (resolutionError exampleFields licenseRequired)))).
Proof.
  split; (split; [reflexivity|]).
  - exact (proj1 (proj2 (proj2 (proj2 (proj1
      (resolveCrossRef_federation_gate exampleSchema exampleFields
         (localRef "K1" "Key") "localhost:8080"
         (PtrKeyTokenGetResponse emptyKeyTokenGetResponse) eq_refl)
      eq_refl)))) eq_refl emptyKeyTokenGetResponse eq_refl).
  - refine (proj2 (proj2 (resolveCrossRef_federation_gate exampleSchema
      exampleFields (remoteRef "K1" "Key") "peer:8080"
      (PtrKeyTokenGetResponse emptyKeyTokenGetResponse) eq_refl) _)).
    simpl. discriminate.
Defined.

(** C1 as stated fails: a reference at this node's address passes the
    federation test, yet with a kind that is none of Thing, Action and Key
    no connector fetch follows. *)
Lemma resolveCrossRef_federation_gate_counterexample :
  LocationURL (localRef "X1" "Device")
    = Some (GetHostAddress (serverConfig exampleSchema))
  /\ locationIsRemote exampleSchema (Some (localRef "X1" "Device")) = Ret false
  /\ resolveCrossRef exampleSchema exampleFields
       (Some (localRef "X1" "Device"))
       (PtrThingGetResponse emptyThingGetResponse)
     = ([], Ret (PtrThingGetResponse emptyThingGetResponse,
                 Some (resolutionError exampleFields
                         "can't resolve the given type 'Device'")))
  /\ calls (resolveCrossRef exampleSchema exampleFields
              (Some (localRef "X1" "Device"))
              (PtrThingGetResponse emptyThingGetResponse)) = [].
Proof. repeat split. Qed.

(** C2, as the code has it.  A reference with this node's address and kind
    Thing, Action or Key, resolved into a destination response of that same
    kind, makes exactly one connector call, [GetThing], [GetAction] or
    [GetKey] respectively, with the reference's identifier, and returns
    what the connector returned. *)
Theorem resolveCrossRef_dispatch f fields ref objectLoaded :
  LocationURL ref = Some (GetHostAddress (serverConfig f)) ->
  let db := dbConnector f in
  let id := NrDollarCref ref in
  (RefType ref = "Thing" ->
     forall thing, objectLoaded = PtrThingGetResponse thing ->
     resolveCrossRef f fields (Some ref) objectLoaded =
       ([CallGetThing id],
        Ret (PtrThingGetResponse (GetThing db id thing).1,
             wrapError fields (GetThing db id thing).2)))
  /\ (RefType ref = "Action" ->
     forall action, objectLoaded = PtrActionGetResponse action ->
     resolveCrossRef f fields (Some ref) objectLoaded =
       ([CallGetAction id],
        Ret (PtrActionGetResponse (GetAction db id action).1,
             wrapError fields (GetAction db id action).2)))
  /\ (RefType ref = "Key" ->
     forall key, objectLoaded = PtrKeyTokenGetResponse key ->
     resolveCrossRef f fields (Some ref) objectLoaded =
       ([CallGetKey id],
        Ret (PtrKeyTokenGetResponse (GetKey db id key).1,
             wrapError fields (GetKey db id key).2))).
Proof.
  intros H db id. rewrite (resolveCrossRef_local _ _ _ _ H).
  repeat split.
  - intros Hk thing ->. by rewrite resolveByType_Thing.
  - intros Hk action ->. by rewrite resolveByType_Action.
  - intros Hk key ->. by rewrite resolveByType_Key.
Qed.

Lemma resolveCrossRef_dispatch_witness :
  LocationURL (localRef "K1" "Key")
    = Some (GetHostAddress (serverConfig exampleSchema)) /\
  resolveCrossRef exampleSchema exampleFields (Some (localRef "K1" "Key"))
      (PtrKeyTokenGetResponse emptyKeyTokenGetResponse) =
    ([CallGetKey "K1"],
     Ret (PtrKeyTokenGetResponse
            (mkKeyTokenGetResponse "K1" "secret" "k@example.org" [] 99
               true true true true None), None)).
Proof.
  split; [reflexivity|].
  exact (proj2 (proj2 (resolveCrossRef_dispatch exampleSchema
    exampleFields (localRef "K1" "Key")
    (PtrKeyTokenGetResponse emptyKeyTokenGetResponse) eq_refl))
    eq_refl emptyKeyTokenGetResponse eq_refl).
Defined.

(** C2 as stated fails: a reference of kind Thing at this node's address,
    met where a key is expected, reaches no connector operation; the
    assertion of the destination to a thing response panics first. *)
Lemma resolveCrossRef_dispatch_counterexample :
  LocationURL (localRef "T1" "Thing")
    = Some (GetHostAddress (serverConfig exampleSchema)) /\
  RefType (localRef "T1" "Thing") = "Thing" /\
  resolveCrossRef exampleSchema exampleFields (Some (localRef "T1" "Thing"))
      (PtrKeyTokenGetResponse emptyKeyTokenGetResponse)
    = ([], Panic badAssertion) /\
  calls (resolveCrossRef exampleSchema exampleFields
           (Some (localRef "T1" "Thing"))
           (PtrKeyTokenGetResponse emptyKeyTokenGetResponse))
    <> [CallGetThing "T1"].
Proof. repeat split. discriminate. Qed.

(** C5, at the input where the code fails.  A reference without a declared
    location, or no reference at all, makes the federation test panic on a
    nil pointer, and the resolution with it. *)
Theorem locationIsRemote_panics f fields id kind objectLoaded :
  locationIsRemote f (Some (mkSingleRef id None kind)) = Panic nilDereference
  /\ locationIsRemote f None = Panic nilDereference
  /\ resolveCrossRef f fields (Some (mkSingleRef id None kind)) objectLoaded
     = ([], Panic nilDereference)
  /\ resolveCrossRef f fields None objectLoaded = ([], Panic nilDereference).
Proof. repeat split. Qed.

(** C6.  A reference with this node's address whose kind is none of Thing,
    Action and Key resolves to the error that names its kind, wrapped with
    the field nodes; no connector call is made, the destination is left as
    it was, and nothing is tried again. *)
Theorem resolveCrossRef_unknown_type f fields ref objectLoaded :
  LocationURL ref = Some (GetHostAddress (serverConfig f)) ->
  RefType ref <> "Thing" -> RefType ref <> "Action" -> RefType ref <> "Key" ->
  resolveCrossRef f fields (Some ref) objectLoaded =
    ([], Ret (objectLoaded,
              Some (resolutionError fields
                      ("can't resolve the given type '" +:+ RefType ref +:+ "'")))).
Proof.
  intros H HT HA HK. rewrite (resolveCrossRef_local _ _ _ _ H).
  unfold resolveByType.
  destruct (String.eqb_spec (RefType ref) "Thing"); [done|].
  destruct (String.eqb_spec (RefType ref) "Action"); [done|].
  destruct (String.eqb_spec (RefType ref) "Key"); [done|].
  by rewrite bindM_retM.
Qed.

Lemma resolveCrossRef_unknown_type_witness :
  resolveCrossRef exampleSchema exampleFields (Some (localRef "X1" "Device"))
      (PtrThingGetResponse emptyThingGetResponse) =
    ([], Ret (PtrThingGetResponse emptyThingGetResponse,
              Some (resolutionError exampleFields
                      "can't resolve the given type 'Device'"))).
Proof.
  apply (resolveCrossRef_unknown_type exampleSchema exampleFields
           (localRef "X1" "Device")); [reflexivity | | | ];
    simpl; discriminate.
Defined.

Lemma Error_wrapError fields err : Error <$> wrapError fields err = Error <$> err.
Proof. by destruct err. Qed.

Lemma resolveCrossRef_unfold f fields cref objectLoaded :
  resolveCrossRef f fields cref objectLoaded =
    match locationIsRemote f cref with
    | Ret true =>
        ([], Ret (objectLoaded, Some (resolutionError fields licenseRequired)))
    | Ret false =>
        (r <- resolveByType (dbConnector f) cref objectLoaded ;;
         retM (r.1, wrapError fields r.2))
    | Panic reason => ([], Panic reason)
    end.
Proof.
  unfold resolveCrossRef.
  destruct (locationIsRemote f cref) as [[|]|reason]; simpl; try done.
  by destruct (resolveByType _ _ _) as [cs [r|reason]].
Qed.

Lemma resolveCrossRef_calls f fields cref objectLoaded :
  calls (resolveCrossRef f fields cref objectLoaded) = []
  \/ exists ref,
       cref = Some ref /\
       (calls (resolveCrossRef f fields cref objectLoaded)
          = [CallGetThing (NrDollarCref ref)]
        \/ calls (resolveCrossRef f fields cref objectLoaded)
          = [CallGetAction (NrDollarCref ref)]
        \/ calls (resolveCrossRef f fields cref objectLoaded)
          = [CallGetKey (NrDollarCref ref)]).
Proof.
  rewrite resolveCrossRef_unfold.
  destruct (locationIsRemote f cref) as [[|]|reason]; [by left | | by left].
  unfold resolveByType. destruct cref as [ref|]; [|by left].
  repeat case_match; simpl; eauto 6.
Qed.

(** C7, as the code has it.  No cross-reference resolution calls the
    reprojection [GetSubQuery] (nor the HTTP request): the calls of a
    resolution are at most one connector fetch.  The selection under the
    fields plays no part in it: two resolutions that differ only in their
    field nodes make the same calls, load the same object and fail, if they
    do, with the same message. *)
Theorem resolveCrossRef_never_reprojects f fields cref objectLoaded :
  (forall selections,
     CallGetSubQuery selections
       ∉ calls (resolveCrossRef f fields cref objectLoaded))
  /\ (forall hostname endpoint method,
     CallDoRequest hostname endpoint method
       ∉ calls (resolveCrossRef f fields cref objectLoaded))
  /\ length (calls (resolveCrossRef f fields cref objectLoaded)) <= 1
  /\ (forall fields',
     observable (resolveCrossRef f fields' cref objectLoaded)
       = observable (resolveCrossRef f fields cref objectLoaded)).
Proof.
  repeat split.
  - intros selections Hin.
    destruct (resolveCrossRef_calls f fields cref objectLoaded)
      as [E|(ref & _ & [E|[E|E]])]; rewrite E in Hin;
      [by apply elem_of_nil in Hin | apply list_elem_of_singleton in Hin ..];
      discriminate.
  - intros hostname endpoint method Hin.
    destruct (resolveCrossRef_calls f fields cref objectLoaded)
      as [E|(ref & _ & [E|[E|E]])]; rewrite E in Hin;
      [by apply elem_of_nil in Hin | apply list_elem_of_singleton in Hin ..];
      discriminate.
  - destruct (resolveCrossRef_calls f fields cref objectLoaded)
      as [E|(ref & _ & [E|[E|E]])]; rewrite E; simpl; lia.
  - intros fields'. rewrite !resolveCrossRef_unfold.
    destruct (locationIsRemote f cref) as [[|]|reason]; try done.
    destruct (resolveByType _ _ _) as [cs [r|reason]]; simpl; [|done].
    unfold observable; simpl. by rewrite !Error_wrapError.
Qed.

(** C7 as stated fails: this resolution of a key reference fetches the key
    and never calls the reprojection, although its field carries a
    selection.  With a fragment spread under the field the reprojection of
    the selection would panic; the resolution returns all the same. *)
Lemma resolveCrossRef_reprojects_counterexample :
  calls (resolveCrossRef exampleSchema exampleFields
           (Some (localRef "K1" "Key"))
           (PtrKeyTokenGetResponse emptyKeyTokenGetResponse))
    = [CallGetKey "K1"]
  /\ ~ (exists selections,
          In (CallGetSubQuery selections)
             (calls (resolveCrossRef exampleSchema exampleFields
                       (Some (localRef "K1" "Key"))
                       (PtrKeyTokenGetResponse emptyKeyTokenGetResponse))))
  /\ GetSubQuery [FragmentSpread (Some "keyFields")] = Panic badAssertion
  /\ resolveCrossRef exampleSchema fragmentFields (Some (localRef "K1" "Key"))
       (PtrKeyTokenGetResponse emptyKeyTokenGetResponse)
     = ([CallGetKey "K1"],
        Ret (PtrKeyTokenGetResponse
               (mkKeyTokenGetResponse "K1" "secret" "k@example.org" [] 99
                  true true true true None), None)).
Proof.
  split; [reflexivity|]. split; [|split; reflexivity].
  intros [selections [H|[]]]. discriminate.
Qed.

(** ** Field resolvers *)

Lemma readField_wrong_source {R} (assert : Value -> option R) read p :
  assert (Source p) = None -> readField assert read p = ([], Ret (VNil, None)).
Proof. intros H. unfold readField. by rewrite H. Qed.

Lemma asKeyTokenGetResponse_None v :
  dynType v <> TKeyTokenGetResponse -> asKeyTokenGetResponse v = None.
Proof. by destruct v. Qed.
Lemma asThingGetResponse_None v :
  dynType v <> TThingGetResponse -> asThingGetResponse v = None.
Proof. by destruct v. Qed.
Lemma asActionGetResponse_None v :
  dynType v <> TActionGetResponse -> asActionGetResponse v = None.
Proof. by destruct v. Qed.
Lemma asObjectSubjectPtr_None v :
  dynType v <> TObjectSubjectPtr -> asObjectSubjectPtr v = None.
Proof. by destruct v. Qed.

(** Going through the fields of a type one name at a time. *)
Ltac next_field H :=
  rewrite lookup_insert in H; case_decide;
  [injection H as <- | ].

(** C8.  Take any object type whose resolvers read their source, and any
    field of it.  Called with a source of another dynamic type than the one
    it asserts, the field's resolver makes no call and returns a nil error
    with an empty result: nil for the fields read from the source, a
    response with every field at its zero value for the reference fields. *)
Theorem resolver_wrong_source_default f t T name resolve p :
  sourceType t = Some T ->
  Fields f t !! name = Some resolve ->
  dynType (Source p) <> T ->
  exists v, resolve p = ([], Ret (v, None)) /\ isEmptyValue v.
Proof.
  intros HT Hlookup Hsrc. unfold isEmptyValue.
  destruct t; simpl in HT; simplify_eq; unfold Fields in Hlookup.
  - apply asKeyTokenGetResponse_None in Hsrc.
    repeat (next_field Hlookup;
      [first [ exists VNil; split; [by apply readField_wrong_source | by left]
             | eexists; split;
               [unfold keyType_parent; by rewrite Hsrc | by right; left] ] | ]).
    by rewrite lookup_empty in Hlookup.
  - apply asThingGetResponse_None in Hsrc.
    repeat (next_field Hlookup;
      [first [ exists VNil; split; [by apply readField_wrong_source | by left]
             | eexists; split;
               [unfold thingType_key; by rewrite Hsrc | by right; left] ] | ]).
    by rewrite lookup_empty in Hlookup.
  - apply asObjectSubjectPtr_None in Hsrc.
    repeat (next_field Hlookup;
      [eexists; split;
         [unfold objectSubjectType_object, objectSubjectType_subject;
          by rewrite Hsrc | by right; right] | ]).
    by rewrite lookup_empty in Hlookup.
  - apply asActionGetResponse_None in Hsrc.
    repeat (next_field Hlookup;
      [first [ exists VNil; split; [by apply readField_wrong_source | by left]
             | eexists; split;
               [unfold actionType_key; by rewrite Hsrc | by right; left] ] | ]).
    by rewrite lookup_empty in Hlookup.
Qed.

Lemma resolver_wrong_source_default_witness :
  exists v,
    keyType_parent exampleSchema
      (exampleParams (VThingGetResponse emptyThingGetResponse) "K1")
      = ([], Ret (v, None)) /\ isEmptyValue v.
Proof.
  apply (resolver_wrong_source_default exampleSchema keyType
           TKeyTokenGetResponse "parent").
  - reflexivity.
  - unfold Fields. apply lookup_insert_eq.
  - simpl. discriminate.
Defined.

(** ** The query root *)

Lemma argID_string p id :
  Args p !! "id" = Some (VString id) -> argID p = retM id.
Proof. intros H. unfold argID. by rewrite H. Qed.

(** C9.  Given a string argument [id], each entry point of the query root
    makes exactly one connector call, of its own kind and for that id, on a
    fresh response, and returns the response as the connector left it
    together with the connector's error, nil or not. *)
Theorem queryType_fetch f p id :
  Args p !! "id" = Some (VString id) ->
  let db := dbConnector f in
  let freshAction :=
    mkActionGetResponse "" "" "" 0 0 (Some emptyObjectSubject) None (Some ∅) in
  (Fields f queryType !! "thing" = Some (queryType_thing f) /\
   queryType_thing f p =
     ([CallGetThing id],
      Ret (VThingGetResponse (GetThing db id emptyThingGetResponse).1,
           (GetThing db id emptyThingGetResponse).2)))
  /\ (Fields f queryType !! "action" = Some (queryType_action f) /\
   queryType_action f p =
     ([CallGetAction id],
      Ret (VActionGetResponse (GetAction db id freshAction).1,
           (GetAction db id freshAction).2)))
  /\ (Fields f queryType !! "key" = Some (queryType_key f) /\
   queryType_key f p =
     ([CallGetKey id],
      Ret (VKeyTokenGetResponse (GetKey db id emptyKeyTokenGetResponse).1,
           (GetKey db id emptyKeyTokenGetResponse).2))).
Proof.
  intros H db freshAction. repeat split.
  - unfold queryType_thing. rewrite (argID_string _ _ H), bindM_retM.
    unfold callGetThing. rewrite bindM_called.
    by destruct (GetThing _ _ _) as [r [e|]].
  - unfold queryType_action. rewrite (argID_string _ _ H), bindM_retM.
    unfold callGetAction. rewrite bindM_called.
    by destruct (GetAction _ _ _) as [r [e|]].
  - unfold queryType_key. rewrite (argID_string _ _ H), bindM_retM.
    unfold callGetKey. rewrite bindM_called.
    by destruct (GetKey _ _ _) as [r [e|]].
Qed.

Lemma queryType_fetch_witness :
  Args (exampleParams VNil "missing") !! "id" = Some (VString "missing") /\
  queryType_thing exampleSchema (exampleParams VNil "missing") =
    ([CallGetThing "missing"],
     Ret (VThingGetResponse emptyThingGetResponse,
          Some (errorString "thing not found"))).
Proof.
  split; [apply lookup_singleton_eq|].
  exact (proj2 (proj1 (queryType_fetch exampleSchema
    (exampleParams VNil "missing") "missing" (lookup_singleton_eq _ _)))).
Defined.

(** ** The schema object *)

(** C10.  [GetGraphQLSchema] returns the stored schema and a nil error in
    every state of the struct, the one [NewGraphQLSchema] leaves before
    [InitSchema] has run included: the address of a field is not nil, so
    the branch with the error is never taken. *)
Theorem GetGraphQLSchema_never_fails :
  (forall f, GetGraphQLSchema f = (weaviateGraphQLSchema f, None))
  /\ (forall db config,
        GetGraphQLSchema (NewGraphQLSchema db config)
          = (mkSchemaValue None, None)).
Proof. split; reflexivity. Qed.

(** ** Strings *)

Lemma append_cons c s t : String c s +:+ t = String c (s +:+ t).
Proof. reflexivity. Qed.

Lemma append_nil_l s : "" +:+ s = s.
Proof. reflexivity. Qed.

Lemma append_nil_r s : s +:+ "" = s.
Proof. induction s as [|c s IH]; [done|]. by rewrite append_cons, IH. Qed.

Lemma append_assoc s t u : (s +:+ t) +:+ u = s +:+ (t +:+ u).
Proof.
  induction s as [|c s IH]; [done|]. by rewrite !append_cons, IH.
Qed.

(** ** The loop of the reprojection *)

Lemma appendSelection_accumulates selection collectQuery :
  appendSelection selection collectQuery =
    obind (appendSelection selection "")
          (fun piece => Ret (collectQuery +:+ piece)).
Proof.
  destruct selection as [[name|] [selections|]| |]; simpl; try done.
  destruct (subQueryLoop appendSelection selections "") as [sub|reason];
    simpl; [|done].
  by rewrite !append_nil_l, append_assoc.
Qed.

Lemma subQueryLoop_accumulates selections collectQuery :
  subQueryLoop appendSelection selections collectQuery =
    obind (subQueryLoop appendSelection selections "")
          (fun text => Ret (collectQuery +:+ text)).
Proof.
  revert collectQuery.
  induction selections as [|selection rest IH]; intros collectQuery; simpl.
  - by rewrite append_nil_r.
  - rewrite (appendSelection_accumulates selection collectQuery).
    destruct (appendSelection selection "") as [piece|reason]; simpl; [|done].
    rewrite (IH (collectQuery +:+ piece)), (IH piece).
    destruct (subQueryLoop appendSelection rest "") as [text|reason];
      simpl; [|done].
    by rewrite append_assoc.
Qed.

Lemma GetSubQuery_nil : GetSubQuery [] = Ret "".
Proof. reflexivity. Qed.

Lemma GetSubQuery_cons selection rest :
  GetSubQuery (selection :: rest) =
    obind (appendSelection selection "") (fun piece =>
      obind (GetSubQuery rest) (fun tail => Ret (piece +:+ tail))).
Proof.
  unfold GetSubQuery; simpl.
  destruct (appendSelection selection "") as [piece|reason]; simpl; [|done].
  by rewrite subQueryLoop_accumulates.
Qed.

Lemma appendSelection_block name selections :
  appendSelection (Field (Some name) (Some selections)) "" =
    obind (GetSubQuery selections) (fun sub =>
      Ret ((" " +:+ name) +:+ (" { " +:+ sub +:+ " } "))).
Proof.
  unfold GetSubQuery; simpl.
  destruct (subQueryLoop appendSelection selections "") as [sub|reason];
    simpl; [|done].
  by rewrite append_nil_l, !append_assoc.
Qed.

(** The text of a field that carries a selection: the name, one space, and
    the block. *)
Lemma GetSubQuery_block name selections rest inner tail :
  GetSubQuery selections = Ret inner ->
  GetSubQuery rest = Ret tail ->
  GetSubQuery (Field (Some name) (Some selections) :: rest) =
    Ret (" " +:+ name +:+ " " +:+ "{" +:+ " " +:+ inner +:+ " " +:+ "}"
         +:+ " " +:+ tail).
Proof.
  intros Hinner Htail.
  rewrite GetSubQuery_cons, appendSelection_block, Hinner, Htail; simpl.
  by rewrite ?append_assoc.
Qed.

Lemma GetSubQuery_leaf name rest tail :
  GetSubQuery rest = Ret tail ->
  GetSubQuery (Field (Some name) None :: rest) = Ret (" " +:+ name +:+ tail).
Proof.
  intros Htail. rewrite GetSubQuery_cons, Htail; simpl.
  by rewrite ?append_assoc.
Qed.

(** ** The lexer *)

Lemma flushName_nil ts : flushName "" ts = Some ts.
Proof. reflexivity. Qed.

Lemma flushName_valid name ts :
  validName name = true -> flushName name ts = Some (TName name :: ts).
Proof.
  destruct name as [|c name]; simpl; [done|].
  intros [H _]%andb_true_iff. by rewrite H.
Qed.

Lemma bind_flushName_nil (m : option (list token)) : m ≫= flushName "" = m.
Proof. by destruct m. Qed.

Lemma lexFrom_noNameHead cur s :
  noNameHead s = true -> lexFrom cur s = lexFrom "" s ≫= flushName cur.
Proof.
  destruct s as [|c s]; simpl; [done|].
  intros H%negb_true_iff. rewrite H.
  destruct (isIgnored c); [by rewrite bind_flushName_nil|].
  destruct (Ascii.eqb c "{"); [by destruct (lexFrom "" s)|].
  destruct (Ascii.eqb c "}"); [by destruct (lexFrom "" s)|done].
Qed.

Lemma lexFrom_name_chars name cur rest :
  allNameChars name = true ->
  lexFrom cur (name +:+ rest) = lexFrom (cur +:+ name) rest.
Proof.
  revert cur. induction name as [|c name IH]; intros cur; simpl.
  - by rewrite append_nil_r.
  - intros [Hc Hname]%andb_true_iff.
    rewrite Hc, (IH _ Hname), append_assoc.
    by rewrite append_cons, append_nil_l.
Qed.

Lemma validName_allNameChars name :
  validName name = true -> allNameChars name = true.
Proof. destruct name; [done|]. simpl. by intros [_ H]%andb_true_iff. Qed.

(** A name in front of a text that does not continue it is one token. *)
Lemma lex_name name rest ts :
  validName name = true -> noNameHead rest = true ->
  lexFrom "" rest = Some ts ->
  lexFrom "" (name +:+ rest) = Some (TName name :: ts).
Proof.
  intros Hname Hrest Hlex.
  rewrite lexFrom_name_chars by by apply validName_allNameChars.
  rewrite append_nil_l, lexFrom_noNameHead, Hlex by done; simpl.
  by apply flushName_valid.
Qed.

Lemma lex_space rest : lexFrom "" (" " +:+ rest) = lexFrom "" rest.
Proof. rewrite append_cons, append_nil_l; simpl. apply bind_flushName_nil. Qed.

Lemma lex_lbrace rest ts :
  lexFrom "" rest = Some ts -> lexFrom "" ("{" +:+ rest) = Some (TLBrace :: ts).
Proof. intros H. rewrite append_cons, append_nil_l; simpl. by rewrite H. Qed.

Lemma lex_rbrace rest ts :
  lexFrom "" rest = Some ts -> lexFrom "" ("}" +:+ rest) = Some (TRBrace :: ts).
Proof. intros H. rewrite append_cons, append_nil_l; simpl. by rewrite H. Qed.

(** ** The text of a field tree lexes to its tokens *)

Lemma block_text inner rest :
  (" { " +:+ inner +:+ " } ") +:+ rest =
    " " +:+ "{" +:+ " " +:+ inner +:+ " " +:+ "}" +:+ " " +:+ rest.
Proof. by rewrite !append_assoc. Qed.

Lemma rendersTo_all selections :
  Forall (fun selection =>
            fieldTree selection = true ->
            rendersTo (appendSelection selection "") (tokensOf selection))
         selections ->
  forallb fieldTree selections = true ->
  rendersTo (GetSubQuery selections) (tokensOfAll selections).
Proof.
  induction 1 as [|selection rest Hsel _ IH]; intros Hwf.
  - exists "". by rewrite GetSubQuery_nil.
  - simpl in Hwf. apply andb_true_iff in Hwf as [Hx Hrest].
    destruct (Hsel Hx) as (piece & Hpiece & Hhead & Hlex).
    destruct (IH Hrest) as (tail & Htail & Hhead' & Hlex').
    exists (piece +:+ tail). split; [|split].
    + by rewrite GetSubQuery_cons, Hpiece, Htail.
    + intros text Htext. rewrite append_assoc. auto.
    + intros text ts Htext Hts. rewrite append_assoc.
      unfold tokensOfAll; simpl. rewrite <- app_assoc.
      apply Hlex; [auto|]. by apply Hlex'.
Qed.

Lemma rendersTo_selection selection :
  fieldTree selection = true ->
  rendersTo (appendSelection selection "") (tokensOf selection).
Proof.
  induction selection as [name|name selections IH|name| |selections IH]
    using Selection_nested_ind; try (simpl; done).
  - destruct name as [name|]; [|done]. simpl. intros Hname.
    exists (" " +:+ name). split; [done|split].
    + intros rest _. by rewrite append_assoc.
    + intros rest ts Hrest Hts. rewrite append_assoc, lex_space.
      by apply lex_name.
  - destruct name as [name|]; [|done].
    cbn [fieldTree tokensOf]. intros [Hname Hwf]%andb_true_iff.
    destruct (rendersTo_all _ IH Hwf) as (inner & Hinner & Hhead & Hlex).
    exists ((" " +:+ name) +:+ (" { " +:+ inner +:+ " } ")). split; [|split].
    + by rewrite appendSelection_block, Hinner.
    + intros rest _. by rewrite !append_assoc.
    + intros rest ts Hrest Hts.
      rewrite append_assoc, block_text, append_assoc, lex_space.
      rewrite <- !app_comm_cons, <- app_assoc; simpl.
      fold (tokensOfAll selections).
      apply lex_name; [done..|].
      rewrite lex_space. apply lex_lbrace. rewrite lex_space.
      apply Hlex; [done|].
      rewrite lex_space. apply lex_rbrace. by rewrite lex_space.
Qed.

Lemma GetSubQuery_rendersTo selections :
  forallb fieldTree selections = true ->
  rendersTo (GetSubQuery selections) (tokensOfAll selections).
Proof.
  apply rendersTo_all, Forall_forall. intros selection _.
  apply rendersTo_selection.
Qed.

Lemma GetSubQuery_lex selections :
  forallb fieldTree selections = true ->
  exists text,
    GetSubQuery selections = Ret text /\ lex text = Some (tokensOfAll selections).
Proof.
  intros (text & Htext & _ & Hlex)%GetSubQuery_rendersTo.
  exists text. split; [done|].
  specialize (Hlex "" [] eq_refl eq_refl).
  by rewrite append_nil_r, app_nil_r in Hlex.
Qed.

(** ** The parser reads back the tokens of a well-formed tree *)

Lemma tokensOfAll_cons selection rest :
  tokensOfAll (selection :: rest)
    = (tokensOf selection ++ tokensOfAll rest)%list.
Proof. reflexivity. Qed.

Lemma wellFormed_cons selection rest :
  wellFormed (selection :: rest) = true ->
  fieldTree selection = true /\ blocksNonEmpty selection = true
  /\ wellFormed rest = true.
Proof.
  unfold wellFormed; simpl. rewrite !andb_true_iff. tauto.
Qed.

Lemma wellFormed_block name selections :
  fieldTree (Field (Some name) (Some selections)) = true ->
  blocksNonEmpty (Field (Some name) (Some selections)) = true ->
  selections <> [] /\ wellFormed selections = true.
Proof.
  unfold wellFormed; simpl. rewrite !andb_true_iff.
  intros [_ Hf] [Hne Hb]. split; [by destruct selections|done].
Qed.

Lemma tokens_not_lbrace selections rest r :
  wellFormed selections = true -> endsFieldList rest = true ->
  (tokensOfAll selections ++ rest)%list <> TLBrace :: r.
Proof.
  destruct selections as [|selection tail].
  - simpl. by destruct rest as [|[]].
  - intros (Hf & _ & _)%wellFormed_cons _. rewrite tokensOfAll_cons.
    by destruct selection as [[name|] [sub|]| |].
Qed.

Lemma parseSelections_tokens fuel selections rest :
  wellFormed selections = true -> endsFieldList rest = true ->
  length (tokensOfAll selections) < fuel ->
  parseSelections fuel (tokensOfAll selections ++ rest)
    = Some (selections, rest).
Proof.
  revert selections rest.
  induction fuel as [|fuel IH]; intros selections rest Hwf Hrest Hfuel; [lia|].
  destruct selections as [|selection tail].
  - simpl. by destruct rest as [|[]].
  - pose proof Hwf as (Hf & Hb & Htail)%wellFormed_cons.
    rewrite tokensOfAll_cons in *. rewrite length_app in Hfuel.
    destruct selection as [[name|] [sub|]| |]; try done.
    + destruct (wellFormed_block _ _ Hf Hb) as [Hne Hsub].
      cbn [tokensOf] in *.
      rewrite <- !app_comm_cons, <- !app_assoc; simpl.
      simpl in Hfuel. rewrite length_app in Hfuel; simpl in Hfuel.
      fold (tokensOfAll sub) in *.
      rewrite (IH sub) by (done || lia).
      destruct sub as [|s sub']; [done|].
      by rewrite (IH tail) by (done || lia).
    + cbn [tokensOf] in *. simpl in Hfuel.
      pose proof (tokens_not_lbrace tail rest) as Hhead.
      specialize (IH tail rest Htail Hrest ltac:(lia)).
      simpl. destruct (tokensOfAll tail ++ rest)%list as [|[]] eqn:E;
        try (by rewrite IH).
      by destruct (Hhead l).
Qed.

(** ** What the lexer and the parser produce *)

Lemma allNameChars_snoc cur c :
  allNameChars cur = true -> isNameChar c = true ->
  allNameChars (cur +:+ String c "") = true.
Proof.
  intros Hcur Hc. induction cur as [|d cur IH]; simpl in *.
  - by rewrite Hc.
  - apply andb_true_iff in Hcur as [Hd Hcur]. by rewrite Hd, IH.
Qed.

Lemma flushName_tokens cur ts ts' :
  allNameChars cur = true -> flushName cur ts = Some ts' ->
  Forall (fun t => validToken t = true) ts ->
  Forall (fun t => validToken t = true) ts'.
Proof.
  intros Hcur Hflush Hts. destruct cur as [|c cur]; simpl in Hflush.
  - by simplify_eq.
  - destruct (isNameStart c) eqn:Hc; simplify_eq.
    constructor; [|done]. simpl. by rewrite Hc.
Qed.

Lemma lexFrom_tokens s cur ts :
  allNameChars cur = true -> lexFrom cur s = Some ts ->
  Forall (fun t => validToken t = true) ts.
Proof.
  revert cur ts. induction s as [|c s IH]; intros cur ts Hcur; simpl.
  - intros H. by eapply flushName_tokens.
  - destruct (isNameChar c) eqn:Hc.
    { apply IH. by apply allNameChars_snoc. }
    destruct (isIgnored c).
    { intros (ts' & Hs & Hflush)%bind_Some.
      apply (flushName_tokens cur ts' ts); [done..|]. by apply (IH ""). }
    destruct (Ascii.eqb c "{").
    { intros (ts' & Hs & Hflush)%bind_Some.
      apply (flushName_tokens cur (TLBrace :: ts') ts); [done..|].
      constructor; [done|]. by apply (IH ""). }
    destruct (Ascii.eqb c "}"); [|done].
    intros (ts' & Hs & Hflush)%bind_Some.
    apply (flushName_tokens cur (TRBrace :: ts') ts); [done..|].
    constructor; [done|]. by apply (IH "").
Qed.

Lemma parseSelections_wellFormed fuel ts selections rest :
  Forall (fun t => validToken t = true) ts ->
  parseSelections fuel ts = Some (selections, rest) ->
  wellFormed selections = true /\ Forall (fun t => validToken t = true) rest.
Proof.
  revert ts selections rest.
  induction fuel as [|fuel IH]; intros ts selections rest Hts Hparse; [done|].
  simpl in Hparse.
  destruct ts as [|[name| |] ts1]; simplify_eq; try done.
  apply Forall_cons in Hts as [Hname Hts1]. simpl in Hname.
  destruct ts1 as [|[name'| |] ts2].
  - destruct (parseSelections fuel []) as [[tail r]|] eqn:E; simplify_eq.
    apply IH in E as [Hwf Hr]; [|done]. split; [|done].
    unfold wellFormed in *; simpl. by rewrite Hname.
  - destruct (parseSelections fuel (TName name' :: ts2)) as [[tail r]|] eqn:E;
      simplify_eq.
    apply IH in E as [Hwf Hr]; [|done]. split; [|done].
    unfold wellFormed in *; simpl. by rewrite Hname.
  - apply Forall_cons in Hts1 as [_ Hts2].
    destruct (parseSelections fuel ts2) as [[sub [|[| |] r]]|] eqn:E;
      simplify_eq.
    destruct sub as [|s sub']; [done|].
    destruct (parseSelections fuel r) as [[tail r']|] eqn:E'; simplify_eq.
    apply IH in E as [Hsub Hr]; [|done].
    apply Forall_cons in Hr as [_ Hr].
    apply IH in E' as [Htail Hr']; [|done]. split; [|done].
    unfold wellFormed in *. simpl in *.
    apply andb_true_iff in Hsub as [Hsub1 Hsub2].
    apply andb_true_iff in Htail as [Htail1 Htail2].
    by rewrite Hname, Hsub1, Hsub2, Htail1, Htail2.
  - destruct (parseSelections fuel (TRBrace :: ts2)) as [[tail r]|] eqn:E;
      simplify_eq.
    apply IH in E as [Hwf Hr]; [|done]. split; [|done].
    unfold wellFormed in *; simpl. by rewrite Hname.
Qed.

(** The fuel of [parse] is enough: the parser leaves a suffix of its input,
    and beyond the number of tokens more fuel changes nothing. *)
Lemma parseSelections_rest fuel ts selections rest :
  parseSelections fuel ts = Some (selections, rest) ->
  length rest <= length ts.
Proof.
  revert ts selections rest.
  induction fuel as [|fuel IH]; intros ts selections rest Hparse; [done|].
  simpl in Hparse.
  destruct ts as [|[name| |] ts1]; simplify_eq; try done.
  destruct ts1 as [|[name'| |] ts2].
  - destruct (parseSelections fuel []) as [[tail r]|] eqn:E; simplify_eq.
    apply IH in E. simpl in *; lia.
  - destruct (parseSelections fuel (TName name' :: ts2)) as [[tail r]|] eqn:E;
      simplify_eq.
    apply IH in E. simpl in *; lia.
  - destruct (parseSelections fuel ts2) as [[sub [|[| |] r]]|] eqn:E;
      simplify_eq.
    destruct sub as [|s sub']; [done|].
    destruct (parseSelections fuel r) as [[tail r']|] eqn:E'; simplify_eq.
    apply IH in E. apply IH in E'. simpl in *; lia.
  - destruct (parseSelections fuel (TRBrace :: ts2)) as [[tail r]|] eqn:E;
      simplify_eq.
    apply IH in E. simpl in *; lia.
Qed.

Lemma parseSelections_enough fuel fuel' ts :
  length ts < fuel -> length ts < fuel' ->
  parseSelections fuel ts = parseSelections fuel' ts.
Proof.
  revert fuel' ts.
  induction fuel as [|fuel IH]; intros fuel' ts Hfuel Hfuel'; [lia|].
  destruct fuel' as [|fuel']; [lia|]. simpl.
  destruct ts as [|[name| |] ts1]; try done. simpl in *.
  destruct ts1 as [|[name'| |] ts2].
  - by rewrite (IH fuel') by (simpl; lia).
  - by rewrite (IH fuel') by (simpl in *; lia).
  - simpl in *. rewrite <- (IH fuel' ts2) by lia.
    destruct (parseSelections fuel ts2) as [[sub [|[| |] r]]|] eqn:E; try done.
    destruct sub as [|s sub']; [done|].
    apply parseSelections_rest in E. simpl in E.
    by rewrite (IH fuel' r) by lia.
  - by rewrite (IH fuel') by (simpl in *; lia).
Qed.

Lemma parse_wellFormed s selections :
  parse s = Some selections -> wellFormed selections = true.
Proof.
  unfold parse, lex. destruct (lexFrom "" s) as [ts|] eqn:Hlex; [|done].
  destruct (parseSelections _ ts) as [[l [|t r]]|] eqn:Hparse; try done.
  intros [= ->]. apply lexFrom_tokens in Hlex; [|done].
  by apply (parseSelections_wellFormed _ _ _ _ Hlex) in Hparse as [? _].
Qed.

Lemma parse_GetSubQuery selections :
  wellFormed selections = true ->
  exists text,
    GetSubQuery selections = Ret text /\ parse text = Some selections.
Proof.
  intros Hwf. pose proof Hwf as [Hf _]%andb_true_iff.
  destruct (GetSubQuery_lex _ Hf) as (text & Htext & Hlex).
  exists text. split; [done|]. unfold parse. rewrite Hlex.
  rewrite <- (app_nil_r (tokensOfAll selections)) at 2.
  rewrite parseSelections_tokens; [done..|lia].
Qed.

(** ** Sub-query reprojection *)

(** C3.  For a selection tree of field nodes, [GetSubQuery] returns a text
    whose tokens are the field names in the tree's own order, depth first
    and left to right, every nested selection a brace-delimited block right
    after its field name.  In the text the block follows the name after
    exactly one space.  For the selection uuid, key with uuid and token,
    the text is the expected one up to white space. *)
Theorem GetSubQuery_renders_in_order :
  (forall selections,
     forallb fieldTree selections = true ->
     exists text,
       GetSubQuery selections = Ret text
       /\ lex text = Some (tokensOfAll selections))
  /\ (forall name selections rest inner tail,
        GetSubQuery selections = Ret inner ->
        GetSubQuery rest = Ret tail ->
        GetSubQuery (Field (Some name) (Some selections) :: rest) =
          Ret (" " +:+ name +:+ " " +:+ "{" +:+ " " +:+ inner +:+ " " +:+ "}"
               +:+ " " +:+ tail))
  /\ (forall name rest tail,
        GetSubQuery rest = Ret tail ->
        GetSubQuery (Field (Some name) None :: rest)
          = Ret (" " +:+ name +:+ tail))
  /\ GetSubQuery scenarioD = Ret " uuid key {  uuid token } "
  /\ sameTokens " uuid key {  uuid token } " " uuid key { uuid token } ".
Proof.
  split; [exact GetSubQuery_lex|].
  split; [exact GetSubQuery_block|].
  split; [exact GetSubQuery_leaf|].
  split; [reflexivity|].
  exists (tokensOfAll scenarioD). split; reflexivity.
Qed.

Lemma GetSubQuery_renders_in_order_witness :
  forallb fieldTree scenarioD = true /\
  exists text,
    GetSubQuery scenarioD = Ret text
    /\ lex text
       = Some [TName "uuid"; TName "key"; TLBrace; TName "uuid";
               TName "token"; TRBrace].
Proof.
  split; [reflexivity|].
  exact (proj1 GetSubQuery_renders_in_order scenarioD eq_refl).
Defined.

(** C4.  A selection tree obtained by parsing a field list is reprojected
    without a panic, and parsing the text that [GetSubQuery] returns gives
    the same tree again: the same field names, nesting and order. *)
Theorem reprojection_round_trip s selections :
  parse s = Some selections ->
  exists text,
    GetSubQuery selections = Ret text /\ parse text = Some selections.
Proof. intros H. by apply parse_GetSubQuery, (parse_wellFormed s). Qed.

Lemma reprojection_round_trip_witness :
  parse "uuid key { uuid token }" = Some scenarioD /\
  exists text,
    GetSubQuery scenarioD = Ret text /\ parse text = Some scenarioD.
Proof.
  split; [reflexivity|].
  apply (reprojection_round_trip "uuid key { uuid token }"). reflexivity.
Defined.

(** * Further properties of the code *)

(** ** Cross-reference resolution, case by case *)

Lemma resolveByType_cases db ref objectLoaded :
  let id := NrDollarCref ref in
  (exists thing,
     RefType ref = "Thing" /\ objectLoaded = PtrThingGetResponse thing /\
     resolveByType db (Some ref) objectLoaded =
       ([CallGetThing id],
        Ret (PtrThingGetResponse (GetThing db id thing).1,
             (GetThing db id thing).2)))
  \/ (exists action,
     RefType ref = "Action" /\ objectLoaded = PtrActionGetResponse action /\
     resolveByType db (Some ref) objectLoaded =
       ([CallGetAction id],
        Ret (PtrActionGetResponse (GetAction db id action).1,
             (GetAction db id action).2)))
  \/ (exists key,
     RefType ref = "Key" /\ objectLoaded = PtrKeyTokenGetResponse key /\
     resolveByType db (Some ref) objectLoaded =
       ([CallGetKey id],
        Ret (PtrKeyTokenGetResponse (GetKey db id key).1,
             (GetKey db id key).2)))
  \/ (knownKind (RefType ref) = true /\
      destinationOf (RefType ref) objectLoaded = false /\
      resolveByType db (Some ref) objectLoaded = ([], Panic badAssertion))
  \/ (knownKind (RefType ref) = false /\
      resolveByType db (Some ref) objectLoaded =
        ([], Ret (objectLoaded,
                  Some (errorString
                          ("can't resolve the given type '" +:+ RefType ref
                           +:+ "'"))))).
Proof.
  intros id. subst id. destruct ref as [id location kind]; simpl.
  unfold resolveByType, knownKind; simpl.
  destruct (String.eqb_spec kind "Thing") as [->|HT]; simpl.
  { destruct objectLoaded; simpl; eauto 10. }
  destruct (String.eqb_spec kind "Action") as [->|HA]; simpl.
  { destruct objectLoaded; simpl; eauto 10. }
  destruct (String.eqb_spec kind "Key") as [->|HK]; simpl.
  { destruct objectLoaded; simpl; eauto 10. }
  eauto 10.
Qed.

Lemma knownKind_cases kind :
  knownKind kind = true -> kind = "Thing" \/ kind = "Action" \/ kind = "Key".
Proof.
  unfold knownKind. rewrite !orb_true_iff, !String.eqb_eq. tauto.
Qed.

Lemma locationIsRemote_cases f cref :
  (cref = None /\ locationIsRemote f cref = Panic nilDereference)
  \/ (exists ref, cref = Some ref /\ LocationURL ref = None /\
        locationIsRemote f cref = Panic nilDereference)
  \/ (exists ref, cref = Some ref /\
        LocationURL ref = Some (GetHostAddress (serverConfig f)) /\
        locationIsRemote f cref = Ret false)
  \/ (exists ref location, cref = Some ref /\
        LocationURL ref = Some location /\
        location <> GetHostAddress (serverConfig f) /\
        locationIsRemote f cref = Ret true).
Proof.
  destruct cref as [ref|]; [|by left]. right.
  destruct (LocationURL ref) as [location|] eqn:Hloc.
  - right. destruct (decide (location = GetHostAddress (serverConfig f)))
      as [->|Hne].
    + left. exists ref. by rewrite locationIsRemote_local.
    + right. exists ref, location.
      by rewrite (locationIsRemote_other _ _ _ Hloc Hne).
  - left. exists ref. unfold locationIsRemote. by rewrite Hloc.
Qed.

(** All the ways a resolution can go. *)
Lemma resolveCrossRef_cases f fields cref objectLoaded :
  let run := resolveCrossRef f fields cref objectLoaded in
  let host := GetHostAddress (serverConfig f) in
  (run = ([], Panic nilDereference) /\
   (cref = None \/ exists ref, cref = Some ref /\ LocationURL ref = None))
  \/ (exists ref location,
        cref = Some ref /\ LocationURL ref = Some location /\
        location <> host /\
        run = ([], Ret (objectLoaded,
                        Some (resolutionError fields licenseRequired))))
  \/ (exists ref,
        cref = Some ref /\ LocationURL ref = Some host /\
        knownKind (RefType ref) = false /\
        run = ([], Ret (objectLoaded,
                        Some (resolutionError fields
                                ("can't resolve the given type '"
                                 +:+ RefType ref +:+ "'")))))
  \/ (exists ref,
        cref = Some ref /\ LocationURL ref = Some host /\
        knownKind (RefType ref) = true /\
        destinationOf (RefType ref) objectLoaded = false /\
        run = ([], Panic badAssertion))
  \/ (exists ref c loaded err,
        cref = Some ref /\ LocationURL ref = Some host /\
        knownKind (RefType ref) = true /\
        destinationOf (RefType ref) objectLoaded = true /\
        (c = CallGetThing (NrDollarCref ref)
         \/ c = CallGetAction (NrDollarCref ref)
         \/ c = CallGetKey (NrDollarCref ref)) /\
        (forall kind, destinationOf kind loaded = destinationOf kind objectLoaded) /\
        run = ([c], Ret (loaded, wrapError fields err))).
Proof.
  intros run host. subst run host. rewrite resolveCrossRef_unfold.
  destruct (locationIsRemote_cases f cref)
    as [[-> ->]|[(ref & -> & Hloc & ->)|[(ref & -> & Hloc & ->)
        |(ref & location & -> & Hloc & Hne & ->)]]].
  - left. eauto.
  - left. eauto.
  - right; right.
    destruct (resolveByType_cases (dbConnector f) ref objectLoaded)
      as [(thing & Hk & -> & ->)|[(action & Hk & -> & ->)
          |[(key & Hk & -> & ->)|[(Hk & Hd & ->)|(Hk & ->)]]]]; simpl.
    + right; right. eexists ref, _, _, _. rewrite Hk.
      repeat split; eauto.
    + right; right. eexists ref, _, _, _. rewrite Hk.
      repeat split; eauto.
    + right; right. eexists ref, _, _, _. rewrite Hk.
      repeat split; eauto.
    + right; left. eauto 10.
    + left. eauto 10.
  - right; left. eauto 10.
Qed.

(** X1.  [resolveCrossRef] panics exactly when the reference is nil, when
    its location is nil, or when the location is this node's, the kind is
    Thing, Action or Key and the destination is not a response of that
    kind; and a panicking resolution has called no connector operation. *)
Theorem resolveCrossRef_panics_iff f fields cref objectLoaded :
  ((exists reason,
      (resolveCrossRef f fields cref objectLoaded).2 = Panic reason)
   <-> (cref = None
        \/ exists ref,
             cref = Some ref /\
             (LocationURL ref = None
              \/ (LocationURL ref = Some (GetHostAddress (serverConfig f))
                  /\ knownKind (RefType ref) = true
                  /\ destinationOf (RefType ref) objectLoaded = false))))
  /\ ((exists reason,
         (resolveCrossRef f fields cref objectLoaded).2 = Panic reason)
      -> calls (resolveCrossRef f fields cref objectLoaded) = []).
Proof.
  destruct (resolveCrossRef_cases f fields cref objectLoaded)
    as [[-> H]|[(ref & loc & -> & Hloc & Hne & ->)
        |[(ref & -> & Hloc & Hk & ->)|[(ref & -> & Hloc & Hk & Hd & ->)
         |(ref & c & loaded & err & -> & Hloc & Hk & Hd & _ & _ & ->)]]]];
    simpl.
  - split; [|done]. split; [|by eauto].
    intros _. destruct H as [->|(ref & -> & Hloc)]; eauto.
  - split; [|by intros [? ?]]. split; [by intros [? ?]|].
    intros [?|(? & [= <-] & [?|(? & ? & ?)])]; congruence.
  - split; [|by intros [? ?]]. split; [by intros [? ?]|].
    intros [?|(? & [= <-] & [?|(? & ? & ?)])]; congruence.
  - split; [|done]. split; [|by eauto]. eauto 10.
  - split; [|by intros [? ?]]. split; [by intros [? ?]|].
    intros [?|(? & [= <-] & [?|(? & ? & ?)])]; congruence.
Qed.

(** X2.  Every error that [resolveCrossRef] returns is made by
    [gqlerrors.NewError] around an original error: it carries the nodes of
    the given fields, has the original's text as message and as stack, and
    keeps the original error. *)
Theorem resolveCrossRef_error_wrapped f fields cref objectLoaded cs loaded err :
  resolveCrossRef f fields cref objectLoaded = (cs, Ret (loaded, Some err)) ->
  exists original source positions,
    err = gqlError (Error original) (FieldASTsToNodeASTs fields)
            (Error original) source positions original.
Proof.
  destruct (resolveCrossRef_cases f fields cref objectLoaded)
    as [[-> H]|[(ref & loc & -> & Hloc & Hne & ->)
        |[(ref & -> & Hloc & Hk & ->)|[(ref & -> & Hloc & Hk & Hd & ->)
         |(ref & c & loaded' & err' & -> & Hloc & Hk & Hd & _ & _ & ->)]]]];
    intros Heq; simplify_eq.
  - by exists (errorString licenseRequired), None, [].
  - by eexists (errorString _), None, [].
  - destruct err' as [original|]; simplify_eq/=.
    by exists original, None, [].
Qed.

Lemma resolveCrossRef_error_wrapped_witness :
  resolveCrossRef exampleSchema exampleFields (Some (remoteRef "K1" "Key"))
      (PtrKeyTokenGetResponse emptyKeyTokenGetResponse)
    = ([], Ret (PtrKeyTokenGetResponse emptyKeyTokenGetResponse,
                Some (resolutionError exampleFields licenseRequired)))
  /\ exists original source positions,
       resolutionError exampleFields licenseRequired
         = gqlError (Error original) (FieldASTsToNodeASTs exampleFields)
             (Error original) source positions original.
Proof.
  split; [reflexivity|].
  exact (resolveCrossRef_error_wrapped exampleSchema exampleFields
    (Some (remoteRef "K1" "Key"))
    (PtrKeyTokenGetResponse emptyKeyTokenGetResponse) _ _ _ eq_refl).
Defined.

(** X3.  A resolution that returns leaves the destination a response of
    the kind it was, and leaves it as it was when no connector operation
    was called. *)
Theorem resolveCrossRef_keeps_destination f fields cref objectLoaded cs loaded err :
  resolveCrossRef f fields cref objectLoaded = (cs, Ret (loaded, err)) ->
  (forall kind, destinationOf kind loaded = destinationOf kind objectLoaded)
  /\ (cs = [] -> loaded = objectLoaded).
Proof.
  destruct (resolveCrossRef_cases f fields cref objectLoaded)
    as [[-> H]|[(ref & loc & -> & Hloc & Hne & ->)
        |[(ref & -> & Hloc & Hk & ->)|[(ref & -> & Hloc & Hk & Hd & ->)
         |(ref & c & loaded' & err' & -> & Hloc & Hk & Hd & _ & Hsame & ->)]]]];
    intros Heq; by simplify_eq.
Qed.

Lemma resolveCrossRef_keeps_destination_witness :
  (forall kind,
     destinationOf kind
       (PtrKeyTokenGetResponse
          (mkKeyTokenGetResponse "K1" "secret" "k@example.org" [] 99
             true true true true None))
     = destinationOf kind (PtrKeyTokenGetResponse emptyKeyTokenGetResponse))
  /\ ([CallGetKey "K1"] = [] ->
      PtrKeyTokenGetResponse
        (mkKeyTokenGetResponse "K1" "secret" "k@example.org" [] 99
           true true true true None)
      = PtrKeyTokenGetResponse emptyKeyTokenGetResponse).
Proof.
  exact (resolveCrossRef_keeps_destination exampleSchema exampleFields
    (Some (localRef "K1" "Key"))
    (PtrKeyTokenGetResponse emptyKeyTokenGetResponse) _ _ _ eq_refl).
Defined.

(** X4.  Fail closed: a resolution returns a nil error only for a reference
    located at this node, of kind Thing, Action or Key, into a destination
    of that kind, and after exactly one connector call for the reference's
    identifier.  No remote reference ever resolves without an error. *)
Theorem resolveCrossRef_nil_error_local f fields cref objectLoaded cs loaded :
  resolveCrossRef f fields cref objectLoaded = (cs, Ret (loaded, None)) ->
  exists ref,
    cref = Some ref
    /\ LocationURL ref = Some (GetHostAddress (serverConfig f))
    /\ knownKind (RefType ref) = true
    /\ destinationOf (RefType ref) objectLoaded = true
    /\ (cs = [CallGetThing (NrDollarCref ref)]
        \/ cs = [CallGetAction (NrDollarCref ref)]
        \/ cs = [CallGetKey (NrDollarCref ref)]).
Proof.
  destruct (resolveCrossRef_cases f fields cref objectLoaded)
    as [[-> H]|[(ref & loc & -> & Hloc & Hne & ->)
        |[(ref & -> & Hloc & Hk & ->)|[(ref & -> & Hloc & Hk & Hd & ->)
         |(ref & c & loaded' & err' & -> & Hloc & Hk & Hd & Hc & _ & ->)]]]];
    intros Heq; simplify_eq.
  exists ref. repeat split; try done.
  destruct Hc as [-> | [-> | ->]]; eauto.
Qed.

Lemma resolveCrossRef_nil_error_local_witness :
  exists ref,
    Some (localRef "K1" "Key") = Some ref
    /\ LocationURL ref = Some (GetHostAddress (serverConfig exampleSchema))
    /\ knownKind (RefType ref) = true
    /\ destinationOf (RefType ref)
         (PtrKeyTokenGetResponse emptyKeyTokenGetResponse) = true
    /\ ([CallGetKey "K1"] = [CallGetThing (NrDollarCref ref)]
        \/ [CallGetKey "K1"] = [CallGetAction (NrDollarCref ref)]
        \/ [CallGetKey "K1"] = [CallGetKey (NrDollarCref ref)]).
Proof.
  exact (resolveCrossRef_nil_error_local exampleSchema exampleFields
    (Some (localRef "K1" "Key"))
    (PtrKeyTokenGetResponse emptyKeyTokenGetResponse) _ _ eq_refl).
Defined.

(** ** The reference resolvers *)

Lemma resolveInto_unfold f p cref empty :
  resolveInto f p cref empty =
    match resolveCrossRef f (FieldASTs (Info p)) cref empty with
    | (cs, Ret r) => (cs, Ret (loadedValue r.1, r.2))
    | (cs, Panic reason) => (cs, Panic reason)
    end.
Proof.
  unfold resolveInto.
  destruct (resolveCrossRef _ _ _ _) as [cs [[loaded [err|]]|reason]]; simpl;
    by rewrite ?app_nil_r.
Qed.

Lemma resolveInto_nil f p empty :
  resolveInto f p None empty = ([], Panic nilDereference).
Proof. by rewrite resolveInto_unfold. Qed.

Lemma resolveInto_remote f p ref location empty :
  LocationURL ref = Some location ->
  location <> GetHostAddress (serverConfig f) ->
  resolveInto f p (Some ref) empty =
    ([], Ret (loadedValue empty,
              Some (resolutionError (FieldASTs (Info p)) licenseRequired))).
Proof.
  intros Hloc Hne.
  by rewrite resolveInto_unfold, (resolveCrossRef_remote _ _ _ _ _ Hloc Hne).
Qed.

Lemma resolveInto_local_key f p ref key :
  LocationURL ref = Some (GetHostAddress (serverConfig f)) ->
  RefType ref = "Key" ->
  resolveInto f p (Some ref) (PtrKeyTokenGetResponse key) =
    ([CallGetKey (NrDollarCref ref)],
     Ret (VKeyTokenGetResponse
            (GetKey (dbConnector f) (NrDollarCref ref) key).1,
          wrapError (FieldASTs (Info p))
            (GetKey (dbConnector f) (NrDollarCref ref) key).2)).
Proof.
  intros Hloc Hk.
  by rewrite resolveInto_unfold, (resolveCrossRef_local _ _ _ _ Hloc),
    resolveByType_Key.
Qed.

Lemma resolveInto_local_thing f p ref thing :
  LocationURL ref = Some (GetHostAddress (serverConfig f)) ->
  RefType ref = "Thing" ->
  resolveInto f p (Some ref) (PtrThingGetResponse thing) =
    ([CallGetThing (NrDollarCref ref)],
     Ret (VThingGetResponse
            (GetThing (dbConnector f) (NrDollarCref ref) thing).1,
          wrapError (FieldASTs (Info p))
            (GetThing (dbConnector f) (NrDollarCref ref) thing).2)).
Proof.
  intros Hloc Hk.
  by rewrite resolveInto_unfold, (resolveCrossRef_local _ _ _ _ Hloc),
    resolveByType_Thing.
Qed.

Lemma destinationOf_dynType loaded empty :
  (forall kind, destinationOf kind loaded = destinationOf kind empty) ->
  dynType (loadedValue loaded) = dynType (loadedValue empty).
Proof.
  intros H.
  destruct loaded, empty; try done;
    first [ by specialize (H "Thing") | by specialize (H "Action")
          | by specialize (H "Key") ].
Qed.

Lemma resolveInto_dynType f p cref empty cs v err :
  resolveInto f p cref empty = (cs, Ret (v, err)) ->
  dynType v = dynType (loadedValue empty).
Proof.
  rewrite resolveInto_unfold.
  destruct (resolveCrossRef_cases f (FieldASTs (Info p)) cref empty)
    as [[-> H]|[(ref & loc & -> & Hloc & Hne & ->)
        |[(ref & -> & Hloc & Hk & ->)|[(ref & -> & Hloc & Hk & Hd & ->)
         |(ref & c & loaded' & err' & -> & Hloc & Hk & Hd & _ & Hsame & ->)]]]];
    intros Heq; simplify_eq/=; try done.
  by apply destinationOf_dynType.
Qed.

Lemma readField_returns {R} (assert : Value -> option R) read p :
  exists v, readField assert read p = ([], Ret (v, None)).
Proof. unfold readField. destruct (assert (Source p)); eauto. Qed.

(** X5.  The resolvers of the fields that are read from the source (every
    field of Key, Thing and Action but [parent] and [key], the reference
    fields) return for every source, of the right type or not, with a nil
    error and without calling the connector. *)
Theorem read_resolvers_never_fail f t name resolve p :
  t <> queryType -> t <> objectSubjectType ->
  Fields f t !! name = Some resolve ->
  name <> "parent" -> name <> "key" ->
  exists v, resolve p = ([], Ret (v, None)).
Proof.
  intros Hq Ho Hlookup Hparent Hkey.
  destruct t; try done; unfold Fields in Hlookup;
    repeat (rewrite lookup_insert in Hlookup; case_decide;
            [simplify_eq;
             first [ congruence | by apply readField_returns ]
            | ]);
    by rewrite lookup_empty in Hlookup.
Qed.

Lemma read_resolvers_never_fail_witness :
  exists v,
    actionType_things (exampleParams (VString "not an action") "A1")
      = ([], Ret (v, None)).
Proof.
  apply (read_resolvers_never_fail exampleSchema actionType "things");
    done.
Defined.

(** X6.  Each of the five reference resolvers, on a source of its type
    whose reference is located at another node, returns the fresh, empty
    response of the referenced type together with the license error wrapped
    with the field's nodes, and calls no connector operation. *)
Theorem reference_resolvers_remote f p ref location :
  LocationURL ref = Some location ->
  location <> GetHostAddress (serverConfig f) ->
  let denied := Some (resolutionError (FieldASTs (Info p)) licenseRequired) in
  let noKey := VKeyTokenGetResponse emptyKeyTokenGetResponse in
  let noThing := VThingGetResponse emptyThingGetResponse in
  (forall key,
     Source p = VKeyTokenGetResponse key -> Parent key = Some ref ->
     keyType_parent f p = ([], Ret (noKey, denied)))
  /\ (forall thing,
     Source p = VThingGetResponse thing -> ThingKey thing = Some ref ->
     thingType_key f p = ([], Ret (noKey, denied)))
  /\ (forall action,
     Source p = VActionGetResponse action -> ActionKey action = Some ref ->
     actionType_key f p = ([], Ret (noKey, denied)))
  /\ (forall things,
     Source p = VObjectSubjectPtr (Some things) -> Object things = Some ref ->
     objectSubjectType_object f p = ([], Ret (noThing, denied)))
  /\ (forall things,
     Source p = VObjectSubjectPtr (Some things) -> Subject things = Some ref ->
     objectSubjectType_subject f p = ([], Ret (noThing, denied))).
Proof.
  intros Hloc Hne denied noKey noThing. repeat split.
  - intros key Hsrc Href. unfold keyType_parent. rewrite Hsrc; simpl.
    by rewrite Href, (resolveInto_remote _ _ _ _ _ Hloc Hne).
  - intros thing Hsrc Href. unfold thingType_key. rewrite Hsrc; simpl.
    by rewrite Href, (resolveInto_remote _ _ _ _ _ Hloc Hne).
  - intros action Hsrc Href. unfold actionType_key. rewrite Hsrc; simpl.
    by rewrite Href, (resolveInto_remote _ _ _ _ _ Hloc Hne).
  - intros things Hsrc Href. unfold objectSubjectType_object.
    rewrite Hsrc; simpl.
    by rewrite Href, (resolveInto_remote _ _ _ _ _ Hloc Hne).
  - intros things Hsrc Href. unfold objectSubjectType_subject.
    rewrite Hsrc; simpl.
    by rewrite Href, (resolveInto_remote _ _ _ _ _ Hloc Hne).
Qed.

Lemma reference_resolvers_remote_witness :
  keyType_parent exampleSchema
      (exampleParams (VKeyTokenGetResponse exampleKey) "K2")
    = ([], Ret (VKeyTokenGetResponse emptyKeyTokenGetResponse,
                Some (resolutionError exampleFields licenseRequired))).
Proof.
  refine (proj1 (reference_resolvers_remote exampleSchema
    (exampleParams (VKeyTokenGetResponse exampleKey) "K2")
    (remoteRef "K1" "Key") "peer:8080" eq_refl _) exampleKey eq_refl eq_refl).
  simpl. discriminate.
Defined.

(** X7.  Each of the five reference resolvers, on a source of its type
    whose reference is located at this node and has the kind of the field
    (Key for [parent] and [key], Thing for [object] and [subject]), calls
    the connector once for the reference's identifier and returns the
    response the connector filled, with the connector's error wrapped with
    the field's nodes, or nil. *)
Theorem reference_resolvers_local f p ref :
  LocationURL ref = Some (GetHostAddress (serverConfig f)) ->
  let db := dbConnector f in
  let id := NrDollarCref ref in
  let fetchedKey :=
    ([CallGetKey id],
     Ret (VKeyTokenGetResponse (GetKey db id emptyKeyTokenGetResponse).1,
          wrapError (FieldASTs (Info p))
            (GetKey db id emptyKeyTokenGetResponse).2)) in
  let fetchedThing :=
    ([CallGetThing id],
     Ret (VThingGetResponse (GetThing db id emptyThingGetResponse).1,
          wrapError (FieldASTs (Info p))
            (GetThing db id emptyThingGetResponse).2)) in
  (RefType ref = "Key" ->
     (forall key,
        Source p = VKeyTokenGetResponse key -> Parent key = Some ref ->
        keyType_parent f p = fetchedKey)
     /\ (forall thing,
        Source p = VThingGetResponse thing -> ThingKey thing = Some ref ->
        thingType_key f p = fetchedKey)
     /\ (forall action,
        Source p = VActionGetResponse action -> ActionKey action = Some ref ->
        actionType_key f p = fetchedKey))
  /\ (RefType ref = "Thing" ->
     (forall things,
        Source p = VObjectSubjectPtr (Some things) ->
        Object things = Some ref ->
        objectSubjectType_object f p = fetchedThing)
     /\ (forall things,
        Source p = VObjectSubjectPtr (Some things) ->
        Subject things = Some ref ->
        objectSubjectType_subject f p = fetchedThing)).
Proof.
  intros Hloc db id fetchedKey fetchedThing. split; intros Hk; repeat split.
  - intros key Hsrc Href. unfold keyType_parent. rewrite Hsrc; simpl.
    by rewrite Href, (resolveInto_local_key _ _ _ _ Hloc Hk).
  - intros thing Hsrc Href. unfold thingType_key. rewrite Hsrc; simpl.
    by rewrite Href, (resolveInto_local_key _ _ _ _ Hloc Hk).
  - intros action Hsrc Href. unfold actionType_key. rewrite Hsrc; simpl.
    by rewrite Href, (resolveInto_local_key _ _ _ _ Hloc Hk).
  - intros things Hsrc Href. unfold objectSubjectType_object.
    rewrite Hsrc; simpl.
    by rewrite Href, (resolveInto_local_thing _ _ _ _ Hloc Hk).
  - intros things Hsrc Href. unfold objectSubjectType_subject.
    rewrite Hsrc; simpl.
    by rewrite Href, (resolveInto_local_thing _ _ _ _ Hloc Hk).
Qed.

Lemma reference_resolvers_local_witness :
  thingType_key exampleSchema
      (exampleParams (VThingGetResponse exampleThing) "T1")
    = ([CallGetKey "K1"],
       Ret (VKeyTokenGetResponse
              (mkKeyTokenGetResponse "K1" "secret" "k@example.org" [] 99
                 true true true true None), None)).
Proof.
  exact (proj1 (proj2 (proj1 (reference_resolvers_local exampleSchema
    (exampleParams (VThingGetResponse exampleThing) "T1")
    (localRef "K1" "Key") eq_refl) eq_refl)) exampleThing eq_refl eq_refl).
Defined.

(** X8.  A reference resolver panics on a source of its type that has no
    reference to follow: a key without [Parent], a thing or an action
    without [Key], an object-subject pair without [Object] or [Subject],
    and a nil pointer to such a pair.  No connector operation is called. *)
Theorem reference_resolvers_missing_reference f p :
  let panics := ([], Panic nilDereference) in
  (forall key,
     Source p = VKeyTokenGetResponse key -> Parent key = None ->
     keyType_parent f p = panics)
  /\ (forall thing,
     Source p = VThingGetResponse thing -> ThingKey thing = None ->
     thingType_key f p = panics)
  /\ (forall action,
     Source p = VActionGetResponse action -> ActionKey action = None ->
     actionType_key f p = panics)
  /\ (forall things,
     Source p = VObjectSubjectPtr (Some things) -> Object things = None ->
     objectSubjectType_object f p = panics)
  /\ (forall things,
     Source p = VObjectSubjectPtr (Some things) -> Subject things = None ->
     objectSubjectType_subject f p = panics)
  /\ (Source p = VObjectSubjectPtr None ->
     objectSubjectType_object f p = panics
     /\ objectSubjectType_subject f p = panics).
Proof.
  intros panics. repeat split.
  - intros key Hsrc Href. unfold keyType_parent. rewrite Hsrc; simpl.
    by rewrite Href, resolveInto_nil.
  - intros thing Hsrc Href. unfold thingType_key. rewrite Hsrc; simpl.
    by rewrite Href, resolveInto_nil.
  - intros action Hsrc Href. unfold actionType_key. rewrite Hsrc; simpl.
    by rewrite Href, resolveInto_nil.
  - intros things Hsrc Href. unfold objectSubjectType_object.
    rewrite Hsrc; simpl. by rewrite Href, resolveInto_nil.
  - intros things Hsrc Href. unfold objectSubjectType_subject.
    rewrite Hsrc; simpl. by rewrite Href, resolveInto_nil.
  - unfold objectSubjectType_object. by rewrite H.
  - unfold objectSubjectType_subject. by rewrite H.
Qed.

(** X9.  Whenever a reference resolver returns, with an error or without,
    for any source and any reference, its value is a response of the
    field's type: a key response for [parent] and [key], a thing response
    for [object] and [subject]. *)
Theorem reference_resolvers_value_type f p cs v err :
  (keyType_parent f p = (cs, Ret (v, err)) ->
     dynType v = TKeyTokenGetResponse)
  /\ (thingType_key f p = (cs, Ret (v, err)) ->
     dynType v = TKeyTokenGetResponse)
  /\ (actionType_key f p = (cs, Ret (v, err)) ->
     dynType v = TKeyTokenGetResponse)
  /\ (objectSubjectType_object f p = (cs, Ret (v, err)) ->
     dynType v = TThingGetResponse)
  /\ (objectSubjectType_subject f p = (cs, Ret (v, err)) ->
     dynType v = TThingGetResponse).
Proof.
  repeat split.
  - unfold keyType_parent.
    destruct (asKeyTokenGetResponse (Source p)) as [key|].
    + by intros ->%resolveInto_dynType.
    + by intros [= <- <- <-].
  - unfold thingType_key.
    destruct (asThingGetResponse (Source p)) as [thing|].
    + by intros ->%resolveInto_dynType.
    + by intros [= <- <- <-].
  - unfold actionType_key.
    destruct (asActionGetResponse (Source p)) as [action|].
    + by intros ->%resolveInto_dynType.
    + by intros [= <- <- <-].
  - unfold objectSubjectType_object.
    destruct (asObjectSubjectPtr (Source p)) as [[things|]|].
    + by intros ->%resolveInto_dynType.
    + done.
    + by intros [= <- <- <-].
  - unfold objectSubjectType_subject.
    destruct (asObjectSubjectPtr (Source p)) as [[things|]|].
    + by intros ->%resolveInto_dynType.
    + done.
    + by intros [= <- <- <-].
Qed.

Lemma reference_resolvers_value_type_witness :
  dynType (VKeyTokenGetResponse emptyKeyTokenGetResponse)
    = TKeyTokenGetResponse.
Proof.
  exact (proj1 (reference_resolvers_value_type exampleSchema
    (exampleParams (VKeyTokenGetResponse exampleKey) "K2") _ _ _) eq_refl).
Defined.

(** X10.  Without a string under ["id"] in the arguments (no entry, or a
    value of another type) the three entry points of the query root panic
    at the assertion, before any connector operation is called. *)
Theorem queryType_bad_argument f p :
  (forall id, Args p !! "id" <> Some (VString id)) ->
  queryType_thing f p = ([], Panic badAssertion)
  /\ queryType_action f p = ([], Panic badAssertion)
  /\ queryType_key f p = ([], Panic badAssertion).
Proof.
  intros H.
  assert (argID p = panicM badAssertion) as Harg.
  { unfold argID. destruct (Args p !! "id") as [[]|] eqn:E; try done.
    by destruct (H s). }
  unfold queryType_thing, queryType_action, queryType_key.
  by rewrite Harg.
Qed.

Lemma queryType_bad_argument_witness :
  queryType_thing exampleSchema
    (mkResolveParams VNil {["id" := VFloat64 7]} (mkResolveInfo [])) =
  ([], Panic badAssertion).
Proof.
  refine (proj1 (queryType_bad_argument exampleSchema
    (mkResolveParams VNil {["id" := VFloat64 7]} (mkResolveInfo [])) _)).
  intros id. simpl. rewrite lookup_singleton_eq. discriminate.
Defined.

(** ** More on the reprojection *)

Lemma returns_all selections :
  Forall (fun selection =>
            (exists piece, appendSelection selection "" = Ret piece)
            <-> namedField selection = true) selections ->
  (exists text, GetSubQuery selections = Ret text)
  <-> forallb namedField selections = true.
Proof.
  induction 1 as [|selection rest Hsel _ IH].
  - split; [done|]. intros _. by exists "".
  - rewrite GetSubQuery_cons. simpl. rewrite andb_true_iff, <- Hsel, <- IH.
    split.
    + intros [text Htext].
      destruct (appendSelection selection "") as [piece|]; [|done].
      destruct (GetSubQuery rest) as [tail|]; [|done]. eauto.
    + intros [[piece ->] [tail ->]]. simpl. eauto.
Qed.

Lemma returns_selection selection :
  (exists piece, appendSelection selection "" = Ret piece)
  <-> namedField selection = true.
Proof.
  induction selection as [name|name selections IH|name| |selections IH]
    using Selection_nested_ind;
    try (split; [by intros [? ?]|done]).
  - destruct name as [name|]; simpl; [|split; [by intros [? ?]|done]].
    split; [done|eauto].
  - destruct name as [name|]; [|split; [by intros [? ?]|done]].
    rewrite appendSelection_block. cbn [namedField].
    rewrite <- (returns_all _ IH). split.
    + intros [piece Hpiece].
      destruct (GetSubQuery selections) as [sub|]; [|done]. eauto.
    + intros [sub ->]. simpl. eauto.
Qed.

(** X11.  [GetSubQuery] returns a text exactly for the selections that are
    fields with a name, all the way down; on any other selection (a
    fragment spread, an inline fragment, a field without name) at any depth
    it panics. *)
Theorem GetSubQuery_returns_iff selections :
  (exists text, GetSubQuery selections = Ret text)
  <-> forallb namedField selections = true.
Proof.
  apply returns_all, Forall_forall. intros selection _.
  apply returns_selection.
Qed.

(** X12.  The text of two selection lists one after the other is the text
    of the first followed by the text of the second; it panics when either
    does. *)
Theorem GetSubQuery_app selections1 selections2 :
  GetSubQuery (selections1 ++ selections2) =
    obind (GetSubQuery selections1) (fun text1 =>
      obind (GetSubQuery selections2) (fun text2 => Ret (text1 +:+ text2))).
Proof.
  induction selections1 as [|selection rest IH]; simpl.
  - rewrite ?GetSubQuery_nil; simpl.
    by destruct (GetSubQuery selections2).
  - rewrite !GetSubQuery_cons, IH.
    destruct (appendSelection selection "") as [piece|]; simpl; [|done].
    destruct (GetSubQuery rest) as [tail|]; simpl; [|done].
    destruct (GetSubQuery selections2) as [text2|]; simpl; [|done].
    by rewrite append_assoc.
Qed.

(** X13.  On selection trees of named fields whose names are names of the
    query language and whose blocks are not empty, [GetSubQuery] is
    injective: two trees with the same text are the same tree. *)
Theorem GetSubQuery_injective selections1 selections2 :
  wellFormed selections1 = true -> wellFormed selections2 = true ->
  GetSubQuery selections1 = GetSubQuery selections2 ->
  selections1 = selections2.
Proof.
  intros (text1 & Htext1 & Hparse1)%parse_GetSubQuery
         (text2 & Htext2 & Hparse2)%parse_GetSubQuery Heq.
  rewrite Htext1, Htext2 in Heq. injection Heq as ->. congruence.
Qed.

Lemma GetSubQuery_injective_witness :
  wellFormed scenarioD = true /\ scenarioD = scenarioD.
Proof.
  split; [reflexivity|].
  exact (GetSubQuery_injective scenarioD scenarioD eq_refl eq_refl eq_refl).
Defined.

(** ** Building the schema *)

(** X14.  When [graphql.NewSchema] fails, [InitSchema] returns its error,
    but has stored the schema value that came with the error and has
    logged that the initialisation finished; [GetGraphQLSchema] on the
    struct afterwards returns that value with a nil error.  The connector
    and the configuration are kept. *)
Theorem InitSchema_failure_goes_unnoticed NewSchema f err :
  (NewSchema (mkSchemaConfig queryType (Fields f))).2 = Some err ->
  let after := (InitSchema NewSchema f).1.1 in
  (InitSchema NewSchema f).2 = Some err
  /\ (InitSchema NewSchema f).1.2 = ["INFO: GraphQL initialisation finished."]
  /\ GetGraphQLSchema after
     = ((NewSchema (mkSchemaConfig queryType (Fields f))).1, None)
  /\ dbConnector after = dbConnector f
  /\ serverConfig after = serverConfig f.
Proof. intros H after. by repeat split. Qed.

Lemma InitSchema_failure_goes_unnoticed_witness :
  (InitSchema failingNewSchema exampleSchema).2
    = Some (errorString "schema rejected")
  /\ GetGraphQLSchema (InitSchema failingNewSchema exampleSchema).1.1
     = (mkSchemaValue None, None).
Proof.
  pose proof (InitSchema_failure_goes_unnoticed failingNewSchema
                exampleSchema (errorString "schema rejected") eq_refl)
    as (H1 & _ & H2 & _).
  exact (conj H1 H2).
Defined.

(** ** The request function *)

(** X15.  When [http.NewRequest] gives no request (it then gives an error,
    which [doRequest] drops), [doRequest] panics on the nil request while
    setting the first header, and nothing is sent. *)
Theorem doRequest_without_request net hostname endpoint method body apiKey :
  (NewRequest net method ((("http://" +:+ hostname) +:+ "/") +:+ endpoint)
     body).1 = None ->
  doRequest net hostname endpoint method body apiKey
    = ([], Panic nilDereference).
Proof. intros H. unfold doRequest. by rewrite H. Qed.

Lemma doRequest_without_request_witness :
  doRequest exampleNet " bad host" "things" "GET" None "secret"
    = ([], Panic nilDereference).
Proof.
  exact (doRequest_without_request exampleNet " bad host" "things" "GET"
           None "secret" eq_refl).
Defined.

(** X16.  When [http.NewRequest] gives a request, [doRequest] sends exactly
    one request, through a transport with at most 10 idle connections, an
    idle timeout of 30 seconds and compression disabled, and returns the
    response and the error of the sending as they are.  The request sent
    has the method, the URL and the body of the one given; it carries the
    API key under the canonical [X-API-KEY] exactly when the key is not
    empty, it accepts JSON, and every header other than the three set here
    is as [http.NewRequest] left it. *)
Theorem doRequest_sends net hostname endpoint method body apiKey req :
  (NewRequest net method ((("http://" +:+ hostname) +:+ "/") +:+ endpoint)
     body).1 = Some req ->
  let canonical := CanonicalHeaderKey net in
  exists sent,
    doRequest net hostname endpoint method body apiKey
      = ([sent], Ret (Do net (mkHTTPTransport 10 30 true) sent))
    /\ Method sent = Method req /\ URL sent = URL req /\ Body sent = Body req
    /\ (apiKey <> "" ->
        Header sent !! canonical "X-API-KEY" = Some [apiKey])
    /\ (apiKey = "" ->
        forall key,
          key <> canonical "Content-Type" -> key <> canonical "Accept" ->
          Header sent !! key = Header req !! key)
    /\ (canonical "X-API-KEY" <> canonical "Accept" ->
        Header sent !! canonical "Accept" = Some ["application/json"])
    /\ (forall key,
          key <> canonical "Content-Type" -> key <> canonical "Accept" ->
          key <> canonical "X-API-KEY" ->
          Header sent !! key = Header req !! key).
Proof.
  intros H canonical. unfold doRequest. rewrite H.
  destruct (String.eqb_spec apiKey "") as [->|Hkey]; simpl;
    eexists; (split; [reflexivity|]); simpl;
    (split; [done|]); (split; [done|]); (split; [done|]).
  - split; [done|]. split; [|split].
    + intros _ key H1 H2. by rewrite !lookup_insert_ne.
    + intros _. by rewrite lookup_insert_eq.
    + intros key H1 H2 _. by rewrite !lookup_insert_ne.
  - split; [|split; [done|split]].
    + intros _. by rewrite lookup_insert_eq.
    + intros Hne. by rewrite lookup_insert_ne, lookup_insert_eq.
    + intros key H1 H2 H3. by rewrite !lookup_insert_ne.
Qed.

Lemma doRequest_sends_witness :
  exists sent,
    doRequest exampleNet "localhost:8080" "things" "GET" None "secret"
      = ([sent], Ret (Some (httpResponse 200 "http://localhost:8080/things"),
                      None))
    /\ Header sent !! "X-Api-Key" = Some ["secret"]
    /\ Header sent !! "Accept" = Some ["application/json"].
Proof.
  destruct (doRequest_sends exampleNet "localhost:8080" "things" "GET" None
              "secret" _ eq_refl)
    as (sent & Hrun & _ & HURL & _ & Hkey & _ & Haccept & _).
  exists sent. split; [|split].
  - rewrite Hrun. simpl. by rewrite HURL.
  - apply Hkey. discriminate.
  - apply Haccept. discriminate.
Defined.

(** ** The generated client *)

Import GraphqlClient.

Lemma WeaviateGraphqlPost_operation defaults a params :
  exists used,
    used = default defaults params /\
    WeaviateGraphqlPost defaults a params =
      ([postOperation a used],
       match (Submit (transport a) (postOperation a used)).2 with
       | Some err => Ret (None, Some err)
       | None =>
           match (Submit (transport a) (postOperation a used)).1 with
           | ResultPostOK ok => Ret (ok, None)
           | _ => Panic badAssertion
           end
       end).
Proof.
  exists (default defaults params). split; [done|].
  unfold WeaviateGraphqlPost. destruct params as [params|]; simpl;
    destruct (Submit _ _) as [[] []]; done.
Qed.

Lemma WeaviateGraphqlBatch_operation defaults a params :
  exists used,
    used = default defaults params /\
    WeaviateGraphqlBatch defaults a params =
      ([batchOperation a used],
       match (Submit (transport a) (batchOperation a used)).2 with
       | Some err => Ret (None, Some err)
       | None =>
           match (Submit (transport a) (batchOperation a used)).1 with
           | ResultBatchOK ok => Ret (ok, None)
           | _ => Panic badAssertion
           end
       end).
Proof.
  exists (default defaults params). split; [done|].
  unfold WeaviateGraphqlBatch. destruct params as [params|]; simpl;
    destruct (Submit _ _) as [[] []]; done.
Qed.

(** X17.  Both operations submit exactly one operation to the transport
    and pass its answer on: an error comes back as it is with a nil
    result, whatever result the transport gave beside it, and a result of
    the operation's own OK type comes back as it is with a nil error. *)
Theorem client_passes_answer_on defaultBatch defaultPost a :
  (forall params, exists op,
     op = postOperation a (default defaultPost params) /\
     (forall err,
        (Submit (transport a) op).2 = Some err ->
        WeaviateGraphqlPost defaultPost a params
          = ([op], Ret (None, Some err))) /\
     (forall ok,
        Submit (transport a) op = (ResultPostOK ok, None) ->
        WeaviateGraphqlPost defaultPost a params = ([op], Ret (ok, None))))
  /\ (forall params, exists op,
     op = batchOperation a (default defaultBatch params) /\
     (forall err,
        (Submit (transport a) op).2 = Some err ->
        WeaviateGraphqlBatch defaultBatch a params
          = ([op], Ret (None, Some err))) /\
     (forall ok,
        Submit (transport a) op = (ResultBatchOK ok, None) ->
        WeaviateGraphqlBatch defaultBatch a params = ([op], Ret (ok, None)))).
Proof.
  split; intros params.
  - destruct (WeaviateGraphqlPost_operation defaultPost a params)
      as (used & -> & ->).
    eexists. split; [done|]. split.
    + intros err ->. done.
    + intros ok ->. done.
  - destruct (WeaviateGraphqlBatch_operation defaultBatch a params)
      as (used & -> & ->).
    eexists. split; [done|]. split.
    + intros err ->. done.
    + intros ok ->. done.
Qed.

Lemma client_passes_answer_on_witness :
  WeaviateGraphqlBatch defaultBatchParams exampleClient None
    = ([batchOperation exampleClient defaultBatchParams],
       Ret (None, Some (errorString "batch refused")))
  /\ WeaviateGraphqlPost defaultPostParams exampleClient None
    = ([postOperation exampleClient defaultPostParams],
       Ret (Some (postOK "data"), None)).
Proof.
  destruct (client_passes_answer_on defaultBatchParams defaultPostParams
              exampleClient) as [Hpost Hbatch].
  destruct (Hpost None) as (op & -> & _ & Hok).
  destruct (Hbatch None) as (op' & -> & Herr & _).
  split.
  - exact (Herr (errorString "batch refused") eq_refl).
  - exact (Hok (Some (postOK "data")) eq_refl).
Defined.

(** X18.  When the transport reports no error but its result is not of the
    operation's OK type (a nil result, the other operation's OK, anything
    else), the operation panics at its type assertion after the
    submission. *)
Theorem client_unexpected_result defaultBatch defaultPost a :
  (forall params,
     let op := postOperation a (default defaultPost params) in
     (Submit (transport a) op).2 = None ->
     (forall ok, (Submit (transport a) op).1 <> ResultPostOK ok) ->
     WeaviateGraphqlPost defaultPost a params = ([op], Panic badAssertion))
  /\ (forall params,
     let op := batchOperation a (default defaultBatch params) in
     (Submit (transport a) op).2 = None ->
     (forall ok, (Submit (transport a) op).1 <> ResultBatchOK ok) ->
     WeaviateGraphqlBatch defaultBatch a params = ([op], Panic badAssertion)).
Proof.
  split; intros params op Herr Hres; subst op.
  - destruct (WeaviateGraphqlPost_operation defaultPost a params)
      as (used & -> & ->).
    rewrite Herr. destruct (Submit _ _).1; try done. by destruct (Hres ok).
  - destruct (WeaviateGraphqlBatch_operation defaultBatch a params)
      as (used & -> & ->).
    rewrite Herr. destruct (Submit _ _).1; try done. by destruct (Hres ok).
Qed.

Lemma client_unexpected_result_witness :
  WeaviateGraphqlPost defaultPostParams
      (New silentTransport (registry "default")) None
    = ([postOperation (New silentTransport (registry "default"))
          defaultPostParams],
       Panic badAssertion).
Proof.
  refine (proj1 (client_unexpected_result defaultBatchParams defaultPostParams
    (New silentTransport (registry "default"))) None eq_refl _).
  intros ok. discriminate.
Defined.

(** X19.  Every operation that the client submits, for any parameters or
    none, is a POST over https only, producing JSON; its reader has the
    formats of the client, and its context and HTTP client are the ones of
    the parameters it carries.  Posts go to [/graphql] and batches to
    [/graphql/batch], under different operation ids. *)
Theorem client_operations_invariant defaultBatch defaultPost a :
  let wellMade op :=
    OpMethod op = "POST" /\ Schemes op = ["https"]
    /\ ProducesMediaTypes op = ["application/json"]
    /\ (Reader op = WeaviateGraphqlPostReader (formats a)
        \/ Reader op = WeaviateGraphqlBatchReader (formats a))
    /\ match Params op with
       | ParamsPost params =>
           OpContext op = PostContext params
           /\ OpClient op = PostHTTPClient params
           /\ PathPattern op = "/graphql" /\ ID op = "weaviate.graphql.post"
       | ParamsBatch params =>
           OpContext op = BatchContext params
           /\ OpClient op = BatchHTTPClient params
           /\ PathPattern op = "/graphql/batch"
           /\ ID op = "weaviate.graphql.batch"
       end in
  (forall params op,
     In op (WeaviateGraphqlPost defaultPost a params).1 -> wellMade op)
  /\ (forall params op,
     In op (WeaviateGraphqlBatch defaultBatch a params).1 -> wellMade op).
Proof.
  intros wellMade. split; intros params op Hin.
  - destruct (WeaviateGraphqlPost_operation defaultPost a params)
      as (used & _ & Hrun).
    rewrite Hrun in Hin. destruct Hin as [<-|[]].
    unfold wellMade; simpl. repeat split; eauto.
  - destruct (WeaviateGraphqlBatch_operation defaultBatch a params)
      as (used & _ & Hrun).
    rewrite Hrun in Hin. destruct Hin as [<-|[]].
    unfold wellMade; simpl. repeat split; eauto.
Qed.

Lemma client_operations_invariant_witness :
  OpMethod (postOperation exampleClient defaultPostParams) = "POST"
  /\ Schemes (postOperation exampleClient defaultPostParams) = ["https"].
Proof.
  destruct (proj1 (client_operations_invariant defaultBatchParams
                     defaultPostParams exampleClient) None
              (postOperation exampleClient defaultPostParams)
              (or_introl eq_refl)) as (H1 & H2 & _).
  exact (conj H1 H2).
Defined.
